(** * Smart File Organizer: a shallow embedding of [automation/file_organizer.py]

    The development models the class [FileOrganizer]: the category table,
    [get_category], and the driver [organize] with its dry-run (preview) and
    commit modes.  The file system below the source directory, the standard
    output and the sequence of file-system calls are explicit state; Python
    exceptions are an outcome of a small state-and-error monad. *)

From Stdlib Require Import ZArith Lia Ascii.
From stdpp Require Import base list strings pretty.

Open Scope Z_scope.
Open Scope nat_scope.

(** ** Python [str] operations used by the organizer

    Strings are sequences of 8-bit characters; [lower] folds the ASCII
    letters and leaves every other character alone. *)
Module Str.

(** [s.rfind(c)]: the highest index of [c] in [s], or [-1]. *)
Fixpoint rfind (c : ascii) (s : string) : Z :=
  match s with
  | EmptyString => (-1)%Z
  | String a s' =>
      let r := rfind c s' in
      if (0 <=? r)%Z then (r + 1)%Z
      else if Ascii.eqb a c then 0%Z else (-1)%Z
  end.

Definition len (s : string) : Z := Z.of_nat (String.length s).

(** [s[i:]] for a non-negative [i]. *)
Fixpoint slice_from (i : nat) (s : string) : string :=
  match i, s with
  | O, _ => s
  | S i', String _ s' => slice_from i' s'
  | S _, EmptyString => EmptyString
  end.

(** [s[:i]] for a non-negative [i]. *)
Fixpoint slice_to (i : nat) (s : string) : string :=
  match i, s with
  | O, _ => EmptyString
  | S i', String a s' => String a (slice_to i' s')
  | S _, EmptyString => EmptyString
  end.

Definition lower_char (c : ascii) : ascii :=
  let n := N_of_ascii c in
  if ((65 <=? n) && (n <=? 90))%N then ascii_of_N (n + 32) else c.

Fixpoint lower (s : string) : string :=
  match s with
  | EmptyString => EmptyString
  | String a s' => String (lower_char a) (lower s')
  end.

End Str.

(** ** [pathlib.PurePath] properties of a final path component

    [suffix] and [stem] as pathlib computes them from [name]: the last dot
    counts only when it is neither the first nor the last character. *)
Module Path.

Definition suffix (name : string) : string :=
  let i := Str.rfind "." name in
  if ((0 <? i) && (i <? Str.len name - 1))%Z
  then Str.slice_from (Z.to_nat i) name
  else "".

Definition stem (name : string) : string :=
  let i := Str.rfind "." name in
  if ((0 <? i) && (i <? Str.len name - 1))%Z
  then Str.slice_to (Z.to_nat i) name
  else name.

End Path.

(** ** The category table and the classifier *)

(** [FileOrganizer.CATEGORIES]: a dict literal, iterated in insertion order. *)
Definition CATEGORIES : list (string * list string) :=
  [ ("Images", [".jpg"; ".jpeg"; ".png"; ".gif"; ".bmp"; ".svg"; ".webp"]);
    ("Documents", [".pdf"; ".doc"; ".docx"; ".txt"; ".xlsx"; ".pptx"; ".odt"]);
    ("Videos", [".mp4"; ".avi"; ".mkv"; ".mov"; ".wmv"; ".flv"; ".webm"]);
    ("Audio", [".mp3"; ".wav"; ".flac"; ".aac"; ".ogg"; ".wma"]);
    ("Archives", [".zip"; ".rar"; ".7z"; ".tar"; ".gz"; ".bz2"]);
    ("Code", [".py"; ".js"; ".html"; ".css"; ".java"; ".cpp"; ".c"; ".h"]);
    ("Executables", [".exe"; ".msi"; ".apk"; ".app"; ".deb"; ".rpm"]) ].

(** The [for category, extensions in ...items()] loop of [get_category],
    with its early [return category] and the final [return 'Others']. *)
Fixpoint get_category_loop (items : list (string * list string))
    (extension : string) : string :=
  match items with
  | [] => "Others"
  | (category, extensions) :: rest =>
      if bool_decide (extension ∈ extensions) then category
      else get_category_loop rest extension
  end.

(** [FileOrganizer.get_category]; the path is given by its final component,
    which is all that [suffix] reads. *)
Definition get_category (file_name : string) : string :=
  let extension := Str.lower (Path.suffix file_name) in
  get_category_loop CATEGORIES extension.

(** ** The file system below the source directory

    A directory is the list of its entries in listing order (the order
    [os.listdir] reports, which the file system chooses); a regular file
    carries its contents.  Symbolic links and permissions are not modelled. *)
#[warnings="-register-all"]
Inductive node : Type :=
  | File (data : string)
  | Dir (entries : list (string * node)).

Module Entries.

(** The node a name resolves to. *)
Fixpoint find (name : string) (es : list (string * node)) : option node :=
  match es with
  | [] => None
  | (n, x) :: es' => if decide (n = name) then Some x else find name es'
  end.

(** Unlink a name. *)
Fixpoint remove (name : string) (es : list (string * node))
    : list (string * node) :=
  match es with
  | [] => []
  | (n, x) :: es' =>
      if decide (n = name) then remove name es' else (n, x) :: remove name es'
  end.

(** Bind a name: in place when it is already bound, else as a new entry. *)
Fixpoint set (name : string) (x : node) (es : list (string * node))
    : list (string * node) :=
  match es with
  | [] => [(name, x)]
  | (n, y) :: es' =>
      if decide (n = name) then (name, x) :: es' else (n, y) :: set name x es'
  end.

Definition names (es : list (string * node)) : list string := es.*1.

End Entries.

(** ** Exceptions, outcomes and the machine state *)

Inductive exn : Type :=
  | FileNotFoundError
  | NotADirectoryError
  | FileExistsError
  | OSError
  | ShutilError.

(** A computation returns, raises, or is cut off when the fuel of a [while]
    loop runs out. *)
Inductive outcome (A : Type) : Type :=
  | Ok (a : A)
  | Raise (e : exn)
  | Timeout.
Arguments Ok {A} a.
Arguments Raise {A} e.
Arguments Timeout {A}.

(** The pathlib/shutil calls that reach the file system. *)
Inductive call : Type :=
  | Iterdir
  | IsFile (name : string)
  | Mkdir (category : string)
  | PathExists (category name : string)
  | Move (name category destination : string).

(** One constructor per [print] of the source, colours left out. *)
Inductive line : Type :=
  | Rule
  | Title
  | DryRunNotice
  | DryRunHint
  | Scanning
  | NoFilesFound
  | Found (n : nat)
  | FileLine (name : string)
  | ArrowLine (category : string)
  | RenamedTo (name : string)
  | ErrorLine (e : exn)
  | SummaryTitle
  | WouldBeOrganized (n : nat)
  | OrganizedSuccessfully (n : nat)
  | ErrorsOccurred (n : nat)
  | Blank.

(** [self.stats]: the dict literal with its three fixed keys. *)
Record Stats : Type := mkStats { moved : nat; skipped : nat; errors : nat }.

(** The organizer object ([dry_run], [stats]) together with the world it acts
    on: [disk] is what the resolved [source_dir] names ([None] when nothing
    is there), [stdout] the printed lines and [calls] the file-system calls,
    both oldest first. *)
Record state : Type := mkState {
  dry_run : bool;
  stats : Stats;
  disk : option node;
  stdout : list line;
  calls : list call
}.

(** [FileOrganizer.__init__]. *)
Definition init (dry : bool) (d : option node) : state :=
  {| dry_run := dry;
     stats := {| moved := 0; skipped := 0; errors := 0 |};
     disk := d; stdout := []; calls := [] |}.

(** ** The monad *)

Definition M (A : Type) : Type := state → outcome A * state.

Definition ret {A} (a : A) : M A := λ s, (Ok a, s).

Definition bind {A B} (m : M A) (k : A → M B) : M B := λ s,
  match m s with
  | (Ok a, s') => k a s'
  | (Raise e, s') => (Raise e, s')
  | (Timeout, s') => (Timeout, s')
  end.

Declare Scope M_scope.
Delimit Scope M_scope with M.
Bind Scope M_scope with M.
Notation "x ← y ; z" := (bind y (λ x, z))
  (at level 20, y at level 100, z at level 200) : M_scope.
Notation "x ;; z" := (bind x (λ _, z))
  (at level 100, z at level 200, right associativity) : M_scope.
Open Scope M_scope.

(** [try: body  except Exception as e: handler e]. *)
Definition try_except {A} (body : M A) (handler : exn → M A) : M A := λ s,
  match body s with
  | (Raise e, s') => handler e s'
  | r => r
  end.

(** [for x in xs: body x]. *)
Fixpoint for_each {A} (xs : list A) (body : A → M unit) : M unit :=
  match xs with
  | [] => ret tt
  | x :: xs' => body x;; for_each xs' body
  end.

Definition timeout {A} : M A := λ s, (Timeout, s).

Definition print (l : line) : M unit := λ s,
  (Ok tt, {| dry_run := dry_run s; stats := stats s; disk := disk s;
             stdout := stdout s ++ [l]; calls := calls s |}).

Definition get_dry_run : M bool := λ s, (Ok (dry_run s), s).

Definition get_stats : M Stats := λ s, (Ok (stats s), s).

Definition set_stats (st : Stats) : M unit := λ s,
  (Ok tt, {| dry_run := dry_run s; stats := st; disk := disk s;
             stdout := stdout s; calls := calls s |}).

(** [self.stats['moved'] += 1]. *)
Definition incr_moved : M unit :=
  st ← get_stats;
  set_stats {| moved := S (moved st); skipped := skipped st; errors := errors st |}.

(** [self.stats['errors'] += 1]. *)
Definition incr_errors : M unit :=
  st ← get_stats;
  set_stats {| moved := moved st; skipped := skipped st; errors := S (errors st) |}.

(** A file-system call: logged, then run on the disk. *)
Definition syscall {A} (c : call) (f : option node → outcome A * option node)
    : M A := λ s,
  let (r, d) := f (disk s) in
  (r, {| dry_run := dry_run s; stats := stats s; disk := d;
         stdout := stdout s; calls := calls s ++ [c] |}).

(** ** What each call does to the disk *)
Module Fs.

(** [source_dir.iterdir()]: the names in the source directory. *)
Definition iterdir (d : option node) : outcome (list string) * option node :=
  match d with
  | Some (Dir es) => (Ok (Entries.names es), d)
  | Some (File _) => (Raise NotADirectoryError, d)
  | None => (Raise FileNotFoundError, d)
  end.

(** [(source_dir / name).is_file()]. *)
Definition is_file (name : string) (d : option node)
    : outcome bool * option node :=
  match d with
  | Some (Dir es) =>
      match Entries.find name es with
      | Some (File _) => (Ok true, d)
      | _ => (Ok false, d)
      end
  | _ => (Ok false, d)
  end.

(** [(source_dir / category).mkdir(exist_ok=True)]: an existing directory
    is accepted, an existing file is not. *)
Definition mkdir (category : string) (d : option node)
    : outcome unit * option node :=
  match d with
  | Some (Dir es) =>
      match Entries.find category es with
      | None => (Ok tt, Some (Dir (es ++ [(category, Dir [])])))
      | Some (Dir _) => (Ok tt, d)
      | Some (File _) => (Raise FileExistsError, d)
      end
  | Some (File _) => (Raise NotADirectoryError, d)
  | None => (Raise FileNotFoundError, d)
  end.

(** [(source_dir / category / name).exists()]. *)
Definition exists_ (category name : string) (d : option node)
    : outcome bool * option node :=
  match d with
  | Some (Dir es) =>
      match Entries.find category es with
      | Some (Dir ch) =>
          match Entries.find name ch with
          | Some _ => (Ok true, d)
          | None => (Ok false, d)
          end
      | _ => (Ok false, d)
      end
  | _ => (Ok false, d)
  end.

(** [shutil.move(source_dir / name, source_dir / category / destination)].
    A destination that is a directory receives the source under its own
    name, unless that name is taken there; otherwise the source is renamed
    onto the destination, and a rename onto an existing regular file
    replaces it. *)
Definition move (name category destination : string) (d : option node)
    : outcome unit * option node :=
  match d with
  | Some (Dir es) =>
      match Entries.find category es with
      | Some (Dir ch) =>
          match Entries.find name es with
          | None => (Raise FileNotFoundError, d)
          | Some x =>
              if decide (name = category) then (Raise OSError, d)
              else
                match Entries.find destination ch with
                | Some (Dir sub) =>
                    match Entries.find name sub with
                    | Some _ => (Raise ShutilError, d)
                    | None =>
                        let sub' := Entries.set name x sub in
                        let ch' := Entries.set destination (Dir sub') ch in
                        (Ok tt, Some (Dir (Entries.set category (Dir ch')
                                             (Entries.remove name es))))
                    end
                | Some (File _) =>
                    match x with
                    | File _ =>
                        let ch' := Entries.set destination x ch in
                        (Ok tt, Some (Dir (Entries.set category (Dir ch')
                                             (Entries.remove name es))))
                    | Dir _ => (Raise NotADirectoryError, d)
                    end
                | None =>
                    let ch' := Entries.set destination x ch in
                    (Ok tt, Some (Dir (Entries.set category (Dir ch')
                                         (Entries.remove name es))))
                end
          end
      | Some (File _) => (Raise NotADirectoryError, d)
      | None => (Raise FileNotFoundError, d)
      end
  | Some (File _) => (Raise NotADirectoryError, d)
  | None => (Raise FileNotFoundError, d)
  end.

End Fs.

Definition iterdir : M (list string) := syscall Iterdir Fs.iterdir.
Definition is_file (name : string) : M bool :=
  syscall (IsFile name) (Fs.is_file name).
Definition mkdir (category : string) : M unit :=
  syscall (Mkdir category) (Fs.mkdir category).
Definition exists_ (category name : string) : M bool :=
  syscall (PathExists category name) (Fs.exists_ category name).
Definition shutil_move (name category destination : string) : M unit :=
  syscall (Move name category destination) (Fs.move name category destination).

(** ** The organizer *)

(** [Path(__file__).name]: the script's own file name. *)
Definition script_name : string := "file_organizer.py".

(** [[f for f in self.source_dir.iterdir() if f.is_file()]] once the
    directory has been listed. *)
Fixpoint select_files (names : list string) : M (list string) :=
  match names with
  | [] => ret []
  | f :: rest =>
      b ← is_file f;
      files ← select_files rest;
      ret (if b then f :: files else files)
  end.

(** The f-string [f"{base}_{counter}{ext}"]. *)
Definition numbered (base : string) (counter : nat) (ext : string) : string :=
  base +:+ "_" +:+ pretty counter +:+ ext.

(** The [while destination.exists()] loop: [destination] is the candidate
    under test and [counter] the next number to try. *)
Fixpoint while_exists (fuel : nat) (category base ext destination : string)
    (counter : nat) : M string :=
  match fuel with
  | O => timeout
  | S fuel' =>
      b ← exists_ category destination;
      if b then
        while_exists fuel' category base ext
          (numbered base counter ext) (S counter)
      else ret destination
  end.

(** The block under [# Handle file name conflicts]: the destination name
    inside the category directory, resolved against the live disk. *)
Definition resolve_destination (fuel : nat) (category file_name : string)
    : M string :=
  collides ← exists_ category file_name;
  if collides then
    let base := Path.stem file_name in
    let ext := Path.suffix file_name in
    renamed ← while_exists fuel category base ext file_name 1;
    print (RenamedTo renamed);;
    ret renamed
  else ret file_name.

(** The body of the [try] block for one scanned file. *)
Definition process_file (fuel : nat) (file_name : string) : M unit :=
  if decide (file_name = script_name) then ret tt (* continue *)
  else
    let category := get_category file_name in
    print (FileLine file_name);;
    print (ArrowLine category);;
    dry ← get_dry_run;
    if negb dry then
      mkdir category;;
      destination ← resolve_destination fuel category file_name;
      shutil_move file_name category destination;;
      incr_moved
    else incr_moved.

(** The [except Exception as e] handler. *)
Definition on_error (e : exn) : M unit :=
  print (ErrorLine e);; incr_errors.

(** One iteration of the [for file_path in files] loop. *)
Definition iteration (fuel : nat) (file_name : string) : M unit :=
  try_except (process_file fuel file_name) on_error.

(** [FileOrganizer._print_summary]. *)
Definition print_summary : M unit :=
  print Rule;; print SummaryTitle;; print Rule;;
  dry ← get_dry_run;
  st ← get_stats;
  (if dry then print (WouldBeOrganized (moved st))
   else print (OrganizedSuccessfully (moved st)));;
  (if 0 <? errors st then print (ErrorsOccurred (errors st)) else ret tt);;
  print Blank.

(** [FileOrganizer.organize]. *)
Definition organize (fuel : nat) : M unit :=
  print Rule;; print Title;; print Rule;;
  dry ← get_dry_run;
  (if dry then print DryRunNotice;; print DryRunHint else ret tt);;
  print Scanning;;
  entries ← iterdir;
  files ← select_files entries;
  match files with
  | [] => print NoFilesFound (* return *)
  | _ :: _ =>
      print (Found (length files));;
      for_each files (iteration fuel);;
      print_summary
  end.

(** ** Observations used to state the properties *)

(** The name resolves to a regular file. *)
Definition is_regular (es : list (string * node)) (name : string) : bool :=
  match Entries.find name es with
  | Some (File _) => true
  | _ => false
  end.

(** The files a scan of the directory selects, in listing order. *)
Definition scanned (es : list (string * node)) : list string :=
  filter (λ name, is_regular es name = true) (Entries.names es).

(** The scanned files that are not the script itself. *)
Definition handled (files : list string) : nat :=
  length (filter (λ name, name ≠ script_name) files).

(** The entries of a sub-directory of the source directory. *)
Definition children (category : string) (es : list (string * node))
    : list (string * node) :=
  match Entries.find category es with
  | Some (Dir ch) => ch
  | _ => []
  end.

(** The source directory once the category directory is known to exist. *)
Definition with_category (category : string) (es : list (string * node))
    : list (string * node) :=
  match Entries.find category es with
  | None => es ++ [(category, Dir [])]
  | Some _ => es
  end.

(** The largest number of entries in a sub-directory. *)
Fixpoint widest (es : list (string * node)) : nat :=
  match es with
  | [] => 0
  | (_, Dir ch) :: es' => Nat.max (length ch) (widest es')
  | (_, File _) :: es' => widest es'
  end.

(** What the collision loop must deliver for a file called [name] in a
    category directory with entries [ch]: the name itself when it is free,
    else the numbered name with the least counter from 1 that is free. *)
Definition resolved (ch : list (string * node)) (name destination : string)
    : Prop :=
  Entries.find destination ch = None ∧
  match Entries.find name ch with
  | None => destination = name
  | Some _ =>
      ∃ n, 1 ≤ n ∧
        destination = numbered (Path.stem name) n (Path.suffix name) ∧
        ∀ k, 1 ≤ k < n →
          is_Some (Entries.find
                     (numbered (Path.stem name) k (Path.suffix name)) ch)
  end.

(** The lines [_print_summary] prints for given statistics. *)
Definition summary_lines (dry : bool) (st : Stats) : list line :=
  [Rule; SummaryTitle; Rule;
   if dry then WouldBeOrganized (moved st)
   else OrganizedSuccessfully (moved st)]
  ++ (if 0 <? errors st then [ErrorsOccurred (errors st)] else [])
  ++ [Blank].

(** The lines printed before the scan. *)
Definition header_lines (dry : bool) : list line :=
  [Rule; Title; Rule]
  ++ (if dry then [DryRunNotice; DryRunHint] else [])
  ++ [Scanning].

(** The two exceptions a missing or non-directory source path raises. *)
Definition DirectoryNotFound (e : exn) : Prop :=
  e = FileNotFoundError ∨ e = NotADirectoryError.

(** The calls that only read the source directory during the scan. *)
Definition scan_call (c : call) : Prop :=
  match c with
  | Iterdir | IsFile _ => True
  | _ => False
  end.

(** An entry two levels below the source directory. *)
Definition find2 (category name : string) (es : list (string * node))
    : option node :=
  Entries.find name (children category es).

(** A state that differs from [s] only by further calls ending in [c]. *)
Definition logged_upto (c : call) (s s' : state) : Prop :=
  dry_run s' = dry_run s ∧ stats s' = stats s ∧ disk s' = disk s ∧
  stdout s' = stdout s ∧ ∃ l, calls s' = calls s ++ l ++ [c].

(** How the [try] body ends in commit mode on a file other than the script,
    from a source directory with entries [es]: [mkdir] raises because the
    category name is a regular file; the rename raises because the source is
    missing or is the category directory itself; or the file is moved to the
    resolved destination, which was free. *)
Inductive processed (name : string) (es : list (string * node)) (s : state)
    : outcome unit → state → Prop :=
  | process_blocked data s1 :
      Entries.find (get_category name) es = Some (File data) →
      disk s1 = disk s →
      stats s1 = stats s →
      processed name es s (Raise FileExistsError) s1
  | process_lost e s1 :
      Entries.find name es = None ∨ name = get_category name →
      disk s1 = Some (Dir (with_category (get_category name) es)) →
      stats s1 = stats s →
      processed name es s (Raise e) s1
  | process_moved x destination s1 :
      Entries.find name es = Some x →
      name ≠ get_category name →
      resolved (children (get_category name) es) name destination →
      disk s1 =
        Some (Dir (Entries.set (get_category name)
                     (Dir (children (get_category name) es
                           ++ [(destination, x)]))
                     (Entries.remove name
                        (with_category (get_category name) es)))) →
      moved (stats s1) = S (moved (stats s)) →
      skipped (stats s1) = skipped (stats s) →
      errors (stats s1) = errors (stats s) →
      (∃ l, calls s1 =
              calls s ++ l ++
              [PathExists (get_category name) destination;
               Move name (get_category name) destination]) →
      processed name es s (Ok tt) s1.

(** The three ways one commit-mode iteration on a file other than the script
    can end, from a source directory with entries [es]: the category name is
    taken by a regular file and [mkdir] raises; the category directory is
    there but the source cannot be renamed; or the file is moved to a fresh
    name in the category directory. *)
Inductive committed (name : string) (es : list (string * node))
    (s s' : state) : Prop :=
  | commit_blocked data :
      Entries.find (get_category name) es = Some (File data) →
      disk s' = disk s →
      moved (stats s') = moved (stats s) →
      errors (stats s') = S (errors (stats s)) →
      committed name es s s'
  | commit_lost :
      Entries.find name es = None ∨ name = get_category name →
      disk s' = Some (Dir (with_category (get_category name) es)) →
      moved (stats s') = moved (stats s) →
      errors (stats s') = S (errors (stats s)) →
      committed name es s s'
  | commit_moved x destination :
      Entries.find name es = Some x →
      name ≠ get_category name →
      resolved (children (get_category name) es) name destination →
      disk s' =
        Some (Dir (Entries.set (get_category name)
                     (Dir (children (get_category name) es
                           ++ [(destination, x)]))
                     (Entries.remove name
                        (with_category (get_category name) es)))) →
      moved (stats s') = S (moved (stats s)) →
      errors (stats s') = errors (stats s) →
      (∃ l, calls s' =
              calls s ++ l ++
              [PathExists (get_category name) destination;
               Move name (get_category name) destination]) →
      committed name es s s'.

(** [m] keeps the relation [R] between the state it starts in and the state
    it ends in, whatever its outcome. *)
Definition preserves {A} (R : state → state → Prop) (m : M A) : Prop :=
  ∀ s, R s (m s).2.

(** The part of the organizer object no statement of the source assigns:
    the mode and the [skipped] counter. *)
Definition same_settings (s s' : state) : Prop :=
  dry_run s' = dry_run s ∧ skipped (stats s') = skipped (stats s).

Global Instance same_settings_preorder : PreOrder same_settings.
Proof.
  split.
  - by intros s.
  - intros s1 s2 s3 [? ?] [? ?]. split; congruence.
Qed.

(** The run ended by printing the summary of its final statistics. *)
Definition yields_summary (s : state) : Prop :=
  ∃ before, stdout s = before ++ summary_lines (dry_run s) (stats s).

(** ** Sample directories *)

(** A new report next to a category directory that already holds two. *)
Definition sample_reports : list (string * node) :=
  [ ("report.txt", File "new");
    ("Documents",
     Dir [("report.txt", File "old"); ("report_1.txt", File "old1")]) ].

(** One file per kind: image, audio, unknown extension, no extension. *)
Definition sample_mixed : list (string * node) :=
  [ ("a.jpg", File "A"); ("b.mp3", File "B");
    ("c.unknownext", File "C"); ("d", File "D") ].

(** An image listed before a regular file that is called [Images]. *)
Definition sample_blocked : list (string * node) :=
  [ ("a.jpg", File "A"); ("Images", File "I") ].

(** A single regular file called [Others]. *)
Definition sample_others : list (string * node) :=
  [ ("Others", File "x") ].

(** ** Further observations *)

(** The eight directory names a category can have. *)
Definition category_names : list string :=
  CATEGORIES.*1 ++ ["Others"].


(** ** The command-line driver [main] *)

(** [str.strip()] with no argument: whitespace is removed at both ends. *)
Module Text.

(** [str.isspace] on the characters below 256. *)
Definition is_space (c : ascii) : bool :=
  let n := N_of_ascii c in
  (((9 <=? n) && (n <=? 13)) || ((28 <=? n) && (n <=? 32))
   || (n =? 133) || (n =? 160))%N.

Fixpoint lstrip (s : string) : string :=
  match s with
  | EmptyString => EmptyString
  | String a s' => if is_space a then lstrip s' else s
  end.

Fixpoint rstrip (s : string) : string :=
  match s with
  | EmptyString => EmptyString
  | String a s' =>
      match rstrip s' with
      | EmptyString => if is_space a then EmptyString else String a EmptyString
      | r => String a r
      end
  end.

Definition strip (s : string) : string := rstrip (lstrip s).

End Text.

(** What [main] shows on the terminal: its own messages and prompts, and
    the lines of the organizer runs it starts, in the order they appear. *)
Inductive console_line : Type :=
  | Welcome
  | AskFolder
  | WillOrganize (source : string)
  | RunningPreview
  | Organizer (l : line)
  | AskProceed
  | OrganizingFiles
  | AllDone
  | Cancelled.

(** A terminal session: the lines the user will type, what has been shown,
    what each folder path names on the disk, and the file-system calls made
    so far.  Two paths are the same folder when they are the same string. *)
Record session : Type := mkSession {
  stdin : list string;
  console : list console_line;
  world : string → option node;
  log : list call
}.

(** How [main] ends: it returns, an exception of an organizer run escapes,
    [input] meets the end of the input, or the fuel runs out. *)
Inductive ending : Type :=
  | Finished
  | Escaped (e : exn)
  | EndOfInput
  | OutOfFuel.

Definition say (l : console_line) (ss : session) : session :=
  {| stdin := stdin ss; console := console ss ++ [l];
     world := world ss; log := log ss |}.

(** [input(prompt)]: the prompt is shown, then a line is read. *)
Definition input (prompt : console_line) (ss : session)
    : option string * session :=
  match stdin ss with
  | [] => (None, say prompt ss)
  | answer :: rest =>
      (Some answer,
       {| stdin := rest; console := console ss ++ [prompt];
          world := world ss; log := log ss |})
  end.

(** [organizer = FileOrganizer(source_dir=source, dry_run=dry)] followed by
    [organizer.organize()]. *)
Definition run_organizer (fuel : nat) (dry : bool) (source : string)
    (ss : session) : outcome unit * session :=
  let (r, s') := organize fuel (init dry (world ss source)) in
  (r,
   {| stdin := stdin ss;
      console := console ss ++ (Organizer <$> stdout s');
      world := λ p, if decide (p = source) then disk s' else world ss p;
      log := log ss ++ calls s' |}).

(** [main()]. *)
Definition main (fuel : nat) (ss : session) : ending * session :=
  let ss := say Welcome ss in
  match input AskFolder ss with
  | (None, ss) => (EndOfInput, ss)
  | (Some folder, ss) =>
      let source := Text.strip folder in
      let source := if decide (source = "") then "." else source in
      let ss := say (WillOrganize source) ss in
      let ss := say RunningPreview ss in
      match run_organizer fuel true source ss with
      | (Raise e, ss) => (Escaped e, ss)
      | (Timeout, ss) => (OutOfFuel, ss)
      | (Ok _, ss) =>
          match input AskProceed ss with
          | (None, ss) => (EndOfInput, ss)
          | (Some answer, ss) =>
              let proceed := Str.lower (Text.strip answer) in
              if bool_decide (proceed ∈ ["yes"; "y"]) then
                let ss := say OrganizingFiles ss in
                match run_organizer fuel false source ss with
                | (Ok _, ss) => (Finished, say AllDone ss)
                | (Raise e, ss) => (Escaped e, ss)
                | (Timeout, ss) => (OutOfFuel, ss)
                end
              else (Finished, say Cancelled ss)
          end
      end
  end.

(** The folder [main] works on for a given first answer. *)
Definition chosen_source (folder : string) : string :=
  if decide (Text.strip folder = "") then "." else Text.strip folder.

(** A session about to start. *)
Definition fresh_session (lines : list string) (w : string → option node)
    : session :=
  {| stdin := lines; console := []; world := w; log := [] |}.

(** ** [automation/chatbotbasics.py]: the rule-based chatbot *)

Module Chat.

(** [needle in haystack] for Python strings. *)
Fixpoint starts_with (prefix s : string) : bool :=
  match prefix, s with
  | EmptyString, _ => true
  | String a prefix', String b s' => Ascii.eqb a b && starts_with prefix' s'
  | String _ _, EmptyString => false
  end.

Fixpoint contains (needle haystack : string) : bool :=
  starts_with needle haystack ||
  match haystack with
  | EmptyString => false
  | String _ rest => contains needle rest
  end.

(** One entry of [conversation_history]. *)
Record message : Type := mkMessage { role : string; content : string }.

(** [LocalChatbot]: the history is the only attribute that changes. *)
Record LocalChatbot : Type := mkBot { conversation_history : list message }.

(** [LocalChatbot.__init__]. *)
Definition new_bot : LocalChatbot := {| conversation_history := [] |}.

(** [self.responses], in insertion order. *)
Definition responses : list (string * string) :=
  [ ("hello", "Hi there! I'm running in local mode. How can I help you today?");
    ("hi", "Hello! I'm a simple local chatbot. What's on your mind?");
    ("how are you", "I'm doing great! I'm a local AI chatbot running without an API. How are you?");
    ("bye", "Goodbye! Have a great day!");
    ("thanks", "You're welcome! Happy to help!");
    ("help", "I'm a simple local chatbot. Try asking me questions or just chat! For full AI power, add an OpenAI API key.");
    ("weather", "I can't check the weather in local mode, but I hope it's nice where you are!");
    ("name", "I'm a local chatbot - a simple AI without cloud APIs. I'm here to chat!") ].

(** The [for keyword, response in self.responses.items()] loop. *)
Fixpoint first_match (items : list (string * string)) (msg_lower : string)
    : option string :=
  match items with
  | [] => None
  | (keyword, response) :: rest =>
      if contains keyword msg_lower then Some response
      else first_match rest msg_lower
  end.

(** The three f-strings of [default_responses]. *)
Definition default_responses (user_message : string) : list string :=
  [ "That's interesting! You said: '" +:+ user_message
      +:+ "'. I'm a simple local chatbot, so my responses are limited.";
    "I heard you say '" +:+ user_message
      +:+ "'. In local mode, I can do basic chats. Want to add an OpenAI key for smarter responses?";
    "Thanks for sharing! I'm running without an API key, so I'm pretty simple. But I'm happy to chat!" ].

(** [LocalChatbot.get_response]: the reply and the bot with its history
    extended.  The index into [default_responses] is a remainder modulo its
    length, so it is always in range. *)
Definition get_response (self : LocalChatbot) (user_message : string)
    : string * LocalChatbot :=
  let history :=
    conversation_history self
    ++ [{| role := "user"; content := user_message |}] in
  let msg_lower := Text.strip (Str.lower user_message) in
  match first_match responses msg_lower with
  | Some response =>
      (response,
       {| conversation_history :=
            history ++ [{| role := "assistant"; content := response |}] |})
  | None =>
      let defaults := default_responses user_message in
      let response :=
        nth (length history mod length defaults) defaults "" in
      (response,
       {| conversation_history :=
            history ++ [{| role := "assistant"; content := response |}] |})
  end.

(** A conversation: [get_response] on each message in turn. *)
Fixpoint converse (self : LocalChatbot) (messages : list string)
    : list string * LocalChatbot :=
  match messages with
  | [] => ([], self)
  | m :: rest =>
      let (reply, self') := get_response self m in
      let (replies, self'') := converse self' rest in
      (reply :: replies, self'')
  end.

(** The history a list of exchanges amounts to. *)
Definition transcript (messages replies : list string) : list message :=
  flat_map (λ '(m, r), [ {| role := "user"; content := m |};
                         {| role := "assistant"; content := r |} ])
    (zip messages replies).

End Chat.

(** ** [automation/email_bot.py]: building the bot *)

Module Email.

(** [EmailBot.SMTP_SERVERS]. *)
Definition SMTP_SERVERS : list (string * (string * nat)) :=
  [ ("gmail", ("smtp.gmail.com", 587));
    ("outlook", ("smtp-mail.outlook.com", 587));
    ("yahoo", ("smtp.mail.yahoo.com", 587)) ].

(** [SMTP_SERVERS[key]]; [None] stands for the [KeyError]. *)
Fixpoint servers_get (key : string) (table : list (string * (string * nat)))
    : option (string * nat) :=
  match table with
  | [] => None
  | (k, v) :: rest => if decide (k = key) then Some v else servers_get key rest
  end.

(** Python's truth value of an [Optional[str]]. *)
Definition truthy (x : option string) : bool :=
  match x with
  | Some s => negb (bool_decide (s = ""))
  | None => false
  end.

(** [a or b]. *)
Definition or_else (a b : option string) : option string :=
  if truthy a then a else b.

(** [EmailBot._get_smtp_config] on the sender address: the configuration,
    and whether the unknown-provider warning is printed.  [None] stands for
    a [KeyError] of the table. *)
Definition get_smtp_config (email_address : string)
    : option (string * nat) * bool :=
  let email_lower := Str.lower email_address in
  if Chat.contains "gmail" email_lower then
    (servers_get "gmail" SMTP_SERVERS, false)
  else if Chat.contains "outlook" email_lower
          || Chat.contains "hotmail" email_lower then
    (servers_get "outlook" SMTP_SERVERS, false)
  else if Chat.contains "yahoo" email_lower then
    (servers_get "yahoo" SMTP_SERVERS, false)
  else (servers_get "gmail" SMTP_SERVERS, true).

Record EmailBot : Type := mkEmailBot {
  email_address : string;
  email_password : string;
  smtp_server : string;
  smtp_port : nat
}.

(** How [EmailBot(...)] ends: with a bot (and possibly the warning), or with
    one of the two [ValueError]s, or with the [KeyError]. *)
Inductive construction : Type :=
  | Built (bot : EmailBot) (warned : bool)
  | AddressNotFound
  | PasswordNotFound
  | KeyError.

(** The placeholder of [.env.example]. *)
Definition placeholder : string := "your_app_password_here".

(** [EmailBot.__init__] with the environment [getenv]. *)
Definition init (address password : option string)
    (getenv : string → option string) : construction :=
  let address := or_else address (getenv "EMAIL_ADDRESS") in
  let password := or_else password (getenv "EMAIL_PASSWORD") in
  match address with
  | Some a =>
      if negb (truthy address) then AddressNotFound
      else
        match password with
        | Some p =>
            if negb (truthy password) || bool_decide (p = placeholder)
            then PasswordNotFound
            else
              match get_smtp_config a with
              | (Some (server, port), warned) =>
                  Built {| email_address := a; email_password := p;
                           smtp_server := server; smtp_port := port |} warned
              | (None, _) => KeyError
              end
        | None => PasswordNotFound
        end
  | None => AddressNotFound
  end.

End Email.

(** * Properties *)

Arguments get_category : simpl never.
Arguments numbered : simpl never.

(** ** Directory entries *)

Lemma find_app name es1 es2 :
  Entries.find name (es1 ++ es2) =
  match Entries.find name es1 with
  | Some x => Some x
  | None => Entries.find name es2
  end.
Proof.
  induction es1 as [|[n x] es1 IH]; simpl; [done|].
  by case_decide.
Qed.

Lemma find_remove name m es :
  Entries.find m (Entries.remove name es) =
  if decide (m = name) then None else Entries.find m es.
Proof.
  induction es as [|[n x] es IH]; simpl.
  - by case_decide.
  - repeat (case_decide; simpl; subst); try congruence.
Qed.

Lemma find_set name x m es :
  Entries.find m (Entries.set name x es) =
  if decide (m = name) then Some x else Entries.find m es.
Proof.
  induction es as [|[n y] es IH]; simpl.
  - repeat (case_decide; simpl; subst); congruence.
  - repeat (case_decide; simpl; subst); try congruence.
Qed.

Lemma find_names name es :
  Entries.find name es = None ↔ name ∉ Entries.names es.
Proof.
  unfold Entries.names.
  induction es as [|[n x] es IH]; simpl.
  - split; [intros _; apply not_elem_of_nil | done].
  - rewrite not_elem_of_cons. case_decide; subst.
    + split; [done | intros [? _]; done].
    + rewrite IH. split; [by split | by intros [_ ?]].
Qed.

Lemma find_Some_names name x es :
  Entries.find name es = Some x → name ∈ Entries.names es.
Proof.
  intros H. destruct (decide (name ∈ Entries.names es)) as [|Hn]; [done|].
  apply find_names in Hn. congruence.
Qed.

Lemma set_fresh name x es :
  Entries.find name es = None → Entries.set name x es = es ++ [(name, x)].
Proof.
  induction es as [|[n y] es IH]; simpl; [done|].
  case_decide; [done|]. intros Hf. by rewrite IH.
Qed.

Lemma widest_find name ch es :
  Entries.find name es = Some (Dir ch) → length ch ≤ widest es.
Proof.
  induction es as [|[n [d|ch']] es IH]; simpl; [done| |];
    case_decide; intros Hf; simplify_eq; try specialize (IH Hf); lia.
Qed.

Lemma widest_app es1 es2 :
  widest (es1 ++ es2) = Nat.max (widest es1) (widest es2).
Proof.
  induction es1 as [|[n [d|ch]] es1 IH]; simpl; [done|done|].
  rewrite IH. lia.
Qed.

Lemma widest_remove name es : widest (Entries.remove name es) ≤ widest es.
Proof.
  induction es as [|[n [d|ch]] es IH]; simpl; [done| |];
    case_decide; simpl; lia.
Qed.

Lemma widest_set_dir name ch es :
  widest (Entries.set name (Dir ch) es) ≤ Nat.max (length ch) (widest es).
Proof.
  induction es as [|[n [d|ch']] es IH]; simpl; [lia| |];
    case_decide; simpl; lia.
Qed.

(** ** The classifier *)

Lemma get_category_loop_first_match items extension :
  (∃ i category extensions,
      items !! i = Some (category, extensions) ∧
      extension ∈ extensions ∧
      (∀ j c exts, j < i → items !! j = Some (c, exts) → extension ∉ exts) ∧
      get_category_loop items extension = category)
  ∨ ((∀ c exts, (c, exts) ∈ items → extension ∉ exts) ∧
     get_category_loop items extension = "Others").
Proof.
  induction items as [|[c exts] items IH]; simpl.
  - right. split; [|done]. intros c exts Hin. by apply elem_of_nil in Hin.
  - case_bool_decide as Hmem.
    + left. exists 0, c, exts. repeat split; [done|]. intros; lia.
    + destruct IH as [(i & c' & exts' & Hi & Hin & Hbefore & Hres)|[Hnone Hres]].
      * left. exists (S i), c', exts'. repeat split; [done..| |done].
        intros [|j] c0 exts0 Hj Hlook; simpl in Hlook.
        -- by simplify_eq.
        -- eapply Hbefore; [|done]. lia.
      * right. split; [|done]. intros c' exts' Hin.
        apply elem_of_cons in Hin as [?|Hin]; [by simplify_eq|by eapply Hnone].
Qed.

(** C1: for every file name the classifier returns the first category, in
    the declaration order Images, Documents, Videos, Audio, Archives, Code,
    Executables, whose extension list contains the lower-cased suffix of the
    name, and ['Others'] when no category contains it, in particular for a
    name without suffix.  The classifier is a total function of the name
    alone: it neither reads nor changes the machine state. *)
Theorem get_category_first_match :
  CATEGORIES.*1 =
    ["Images"; "Documents"; "Videos"; "Audio"; "Archives"; "Code";
     "Executables"] ∧
  ∀ file_name,
    let extension := Str.lower (Path.suffix file_name) in
    ((∃ i category extensions,
        CATEGORIES !! i = Some (category, extensions) ∧
        extension ∈ extensions ∧
        (∀ j c exts,
            j < i → CATEGORIES !! j = Some (c, exts) → extension ∉ exts) ∧
        get_category file_name = category)
     ∨ ((∀ c exts, (c, exts) ∈ CATEGORIES → extension ∉ exts) ∧
        get_category file_name = "Others"))
    ∧ (Path.suffix file_name = "" → get_category file_name = "Others").
Proof.
  split; [reflexivity|].
  intros file_name extension. split.
  - apply get_category_loop_first_match.
  - intros Hsuffix. unfold get_category. rewrite Hsuffix. reflexivity.
Qed.

Example get_category_samples :
  get_category <$> ["a.jpg"; "b.MP3"; "c.unknownext"; "d"; "x.tar.gz";
                    ".jpg"; "notes."; "A.JPEG"; "file_organizer.py"]
  = ["Images"; "Audio"; "Others"; "Others"; "Archives";
     "Others"; "Others"; "Images"; "Code"].
Proof. reflexivity. Qed.

(** ** Numbered names *)

Lemma append_length s1 s2 :
  String.length (s1 +:+ s2) = String.length s1 + String.length s2.
Proof. induction s1 as [|a s1 IH]; simpl; [done|]. by rewrite IH. Qed.

Lemma append_inj_r s1 s2 e : s1 +:+ e = s2 +:+ e → s1 = s2.
Proof.
  intros Heq.
  assert (Hlen : String.length s1 = String.length s2).
  { apply (f_equal String.length) in Heq. rewrite !append_length in Heq. lia. }
  revert s2 Heq Hlen.
  induction s1 as [|a s1 IH]; intros [|b s2] Heq Hlen; simpl in *;
    try done.
  injection Heq as -> Heq. f_equal. apply IH; [done|lia].
Qed.

Lemma numbered_inj base ext : Inj (=) (=) (λ n, numbered base n ext).
Proof.
  intros n1 n2 Heq. unfold numbered in Heq.
  apply String.app_inj in Heq. simpl in Heq.
  injection Heq as Heq. apply String.app_inj, append_inj_r in Heq.
  by apply (inj pretty) in Heq.
Qed.

Lemma least_in_range (P : nat → Prop) `{!∀ n, Decision (P n)} m k :
  (∃ j, k ≤ j < k + m ∧ P j) →
  ∃ j, k ≤ j < k + m ∧ P j ∧ ∀ i, k ≤ i < j → ¬ P i.
Proof.
  revert k. induction m as [|m IH]; intros k (j & Hj & HP); [lia|].
  destruct (decide (P k)) as [Hk|Hk].
  - exists k. repeat split; [lia..|done|]. intros; lia.
  - destruct (IH (S k)) as (j' & Hj' & HP' & Hleast).
    + exists j. split; [|done].
      destruct (decide (j = k)) as [->|]; [done|lia].
    + exists j'. repeat split; [lia..|done|].
      intros i Hi. destruct (decide (i = k)) as [->|]; [done|].
      apply Hleast. lia.
Qed.

(** Among [length ch + 1] consecutive counters one numbers a free name: the
    numbered names are pairwise distinct and [ch] has only [length ch]
    names. *)
Lemma free_number ch base ext k :
  ∃ j, k ≤ j < k + S (length ch) ∧
    Entries.find (numbered base j ext) ch = None ∧
    ∀ i, k ≤ i < j → is_Some (Entries.find (numbered base i ext) ch).
Proof.
  destruct (least_in_range
              (λ j, Entries.find (numbered base j ext) ch = None)
              (S (length ch)) k) as (j & Hj & Hfree & Hleast).
  - set (cands := (λ n, numbered base n ext) <$> seq k (S (length ch))).
    destruct (decide (Exists (λ c, c ∉ Entries.names ch) cands))
      as [Hex|Hall].
    + apply Exists_exists in Hex as (c & Hc & Hfree).
      apply list_elem_of_fmap in Hc as (j & -> & Hj).
      apply elem_of_seq in Hj. exists j. split; [lia|].
      by apply find_names.
    + exfalso. apply not_Exists_Forall in Hall; [|apply _].
      assert (Hsub : cands ⊆+ Entries.names ch).
      { apply NoDup_submseteq.
        - apply NoDup_fmap_2; [apply numbered_inj | apply NoDup_seq].
        - intros c Hc. rewrite Forall_forall in Hall.
          specialize (Hall c Hc). simpl in Hall.
          by apply dec_stable in Hall. }
      apply submseteq_length in Hsub.
      unfold cands, Entries.names in Hsub.
      rewrite !length_fmap, length_seq in Hsub. lia.
  - exists j. repeat split; [lia..|done|].
    intros i Hi. specialize (Hleast i Hi).
    destruct (Entries.find (numbered base i ext) ch); [by eexists|done].
Qed.

(** ** The collision loop *)

Lemma exists_run category name s es ch :
  disk s = Some (Dir es) → Entries.find category es = Some (Dir ch) →
  ∃ s', exists_ category name s =
          (Ok (bool_decide (is_Some (Entries.find name ch))), s') ∧
        dry_run s' = dry_run s ∧ stats s' = stats s ∧ disk s' = disk s ∧
        stdout s' = stdout s ∧
        calls s' = calls s ++ [PathExists category name].
Proof.
  intros Hdisk Hcat. unfold exists_, syscall, Fs.exists_.
  rewrite Hdisk, Hcat.
  exists {| dry_run := dry_run s; stats := stats s; disk := disk s;
            stdout := stdout s;
            calls := calls s ++ [PathExists category name] |}.
  split; [|done]. rewrite Hdisk.
  destruct (Entries.find name ch) as [x|].
  - rewrite bool_decide_true; [done|by eexists].
  - rewrite bool_decide_false; [done|by intros [? ?]].
Qed.

Lemma while_exists_free fuel category base ext destination k s es ch :
  disk s = Some (Dir es) → Entries.find category es = Some (Dir ch) →
  Entries.find destination ch = None → 0 < fuel →
  ∃ s', while_exists fuel category base ext destination k s
          = (Ok destination, s') ∧
        logged_upto (PathExists category destination) s s'.
Proof.
  intros Hdisk Hcat Hfree Hfuel. destruct fuel as [|fuel]; [lia|]. simpl.
  destruct (exists_run category destination s es ch Hdisk Hcat)
    as (s' & Hrun & Hdry & Hstats & Hd & Hout & Hcalls).
  unfold bind. rewrite Hrun, Hfree.
  rewrite bool_decide_false; [|by intros [? ?]].
  exists s'. split; [done|]. repeat split; try done.
  exists []. by rewrite Hcalls.
Qed.

Lemma while_exists_taken category base ext es ch j :
  Entries.find category es = Some (Dir ch) →
  Entries.find (numbered base j ext) ch = None →
  ∀ fuel k destination s,
    disk s = Some (Dir es) →
    is_Some (Entries.find destination ch) →
    (∀ i, k ≤ i < j → is_Some (Entries.find (numbered base i ext) ch)) →
    k ≤ j → j - k + 1 < fuel →
    ∃ s', while_exists fuel category base ext destination k s
            = (Ok (numbered base j ext), s') ∧
          logged_upto (PathExists category (numbered base j ext)) s s'.
Proof.
  intros Hcat Hfree.
  induction fuel as [|fuel IH]; intros k destination s Hdisk Htaken Hbelow Hkj Hfuel;
    [lia|].
  simpl.
  destruct (exists_run category destination s es ch Hdisk Hcat)
    as (s1 & Hrun & Hdry & Hstats & Hd & Hout & Hcalls).
  unfold bind. rewrite Hrun. rewrite bool_decide_true; [|done].
  assert (Hdisk1 : disk s1 = Some (Dir es)) by congruence.
  destruct (decide (k = j)) as [->|Hne].
  - destruct (while_exists_free fuel category base ext (numbered base j ext)
                (S j) s1 es ch Hdisk1 Hcat Hfree)
      as (s' & Hrun' & Hdry' & Hstats' & Hd' & Hout' & l & Hcalls'); [lia|].
    exists s'. split; [done|]. repeat split; try congruence.
    exists (PathExists category destination :: l).
    rewrite Hcalls', Hcalls. by rewrite <- !app_assoc.
  - destruct (IH (S k) (numbered base k ext) s1 Hdisk1)
      as (s' & Hrun' & Hdry' & Hstats' & Hd' & Hout' & l & Hcalls').
    + apply Hbelow. lia.
    + intros i Hi. apply Hbelow. lia.
    + lia.
    + lia.
    + exists s'. split; [done|]. repeat split; try congruence.
      exists (PathExists category destination :: l).
      rewrite Hcalls', Hcalls. by rewrite <- !app_assoc.
Qed.

Lemma resolve_destination_run fuel category name s es ch :
  disk s = Some (Dir es) → Entries.find category es = Some (Dir ch) →
  length ch + 1 < fuel →
  ∃ destination s',
    resolve_destination fuel category name s = (Ok destination, s') ∧
    resolved ch name destination ∧
    dry_run s' = dry_run s ∧ stats s' = stats s ∧ disk s' = disk s ∧
    ∃ l, calls s' = calls s ++ l ++ [PathExists category destination].
Proof.
  intros Hdisk Hcat Hfuel. unfold resolve_destination, resolved.
  destruct (exists_run category name s es ch Hdisk Hcat)
    as (s1 & Hrun & Hdry & Hstats & Hd & Hout & Hcalls).
  unfold bind at 1. rewrite Hrun.
  destruct (Entries.find name ch) as [x|] eqn:Hname.
  - rewrite bool_decide_true; [|by eexists].
    destruct (free_number ch (Path.stem name) (Path.suffix name) 1)
      as (j & Hj & Hfree & Hbelow).
    destruct (while_exists_taken category (Path.stem name) (Path.suffix name)
                es ch j Hcat Hfree fuel 1 name s1)
      as (s2 & Hloop & Hdry2 & Hstats2 & Hd2 & Hout2 & l & Hcalls2);
      [congruence|by eexists|done|lia|lia|].
    unfold bind. rewrite Hloop. unfold print, ret.
    eexists _, _. split; [done|]. cbn [dry_run stats disk stdout calls].
    split; [|repeat split; try congruence].
    + split; [done|]. exists j. split; [lia|]. by split.
    + exists (PathExists category name :: l).
      rewrite Hcalls2, Hcalls. by rewrite <- !app_assoc.
  - rewrite bool_decide_false; [|by intros [? ?]].
    exists name, s1. unfold ret. split; [done|].
    repeat split; try done. exists []. by rewrite Hcalls.
Qed.

Lemma shutil_move_fresh name category destination s es ch :
  disk s = Some (Dir es) → Entries.find category es = Some (Dir ch) →
  Entries.find destination ch = None →
  shutil_move name category destination s =
    match Entries.find name es with
    | None =>
        (Raise FileNotFoundError,
         {| dry_run := dry_run s; stats := stats s; disk := disk s;
            stdout := stdout s;
            calls := calls s ++ [Move name category destination] |})
    | Some x =>
        if decide (name = category) then
          (Raise OSError,
           {| dry_run := dry_run s; stats := stats s; disk := disk s;
              stdout := stdout s;
              calls := calls s ++ [Move name category destination] |})
        else
          (Ok tt,
           {| dry_run := dry_run s; stats := stats s;
              disk := Some (Dir (Entries.set category
                                   (Dir (ch ++ [(destination, x)]))
                                   (Entries.remove name es)));
              stdout := stdout s;
              calls := calls s ++ [Move name category destination] |})
    end.
Proof.
  intros Hdisk Hcat Hfree. unfold shutil_move, syscall, Fs.move.
  rewrite Hdisk, Hcat, Hfree.
  destruct (Entries.find name es) as [x|]; [|done].
  case_decide; [done|]. by rewrite (set_fresh destination).
Qed.

(** ** One iteration of the per-file loop *)

Ltac run_tail :=
  unfold on_error, incr_errors, incr_moved, bind, print, get_stats, set_stats;
  cbn [dry_run stats disk stdout calls moved skipped errors].

Lemma process_file_commit fuel name s es :
  dry_run s = false → disk s = Some (Dir es) → name ≠ script_name →
  widest es + 1 < fuel →
  ∃ r s1, process_file fuel name s = (r, s1) ∧
          dry_run s1 = false ∧ processed name es s r s1.
Proof.
  intros Hdry Hdisk Hname Hfuel.
  unfold process_file. case_decide; [done|].
  set (c := get_category name).
  unfold bind at 1 2 3. unfold print at 1 2, get_dry_run.
  cbn [dry_run stats disk stdout calls]. rewrite Hdry. cbn [negb].
  unfold bind at 1. unfold mkdir, syscall, Fs.mkdir.
  cbn [dry_run stats disk stdout calls]. rewrite Hdisk.
  destruct (Entries.find c es) as [[data|ch]|] eqn:Hcat.
  - (* the category name is a regular file *)
    eexists _, _. split; [done|]. split; [done|].
    by eapply process_blocked.
  - (* the category directory exists *)
    cbv beta iota zeta. unfold bind at 1.
    match goal with |- context [resolve_destination _ _ _ ?st] =>
      set (s3 := st) end.
    destruct (resolve_destination_run fuel c name s3 es ch)
      as (d & s4 & Hres & Hresolved & Hdry4 & Hstats4 & Hdisk4 & l & Hcalls4);
      [done|done|apply widest_find in Hcat; lia|].
    rewrite Hres. unfold bind at 1.
    rewrite (shutil_move_fresh name c d s4 es ch);
      [|by rewrite Hdisk4|done|apply Hresolved].
    assert (Hwith : with_category c es = es)
      by (unfold with_category; by rewrite Hcat).
    assert (Hch : children c es = ch) by (unfold children; by rewrite Hcat).
    destruct (Entries.find name es) as [x|] eqn:Hsrc; [case_decide|].
    + eexists _, _. split; [done|]. split; [done|].
      apply process_lost; fold c; cbn; rewrite ?Hstats4, ?Hdisk4, ?Hwith; auto.
    + run_tail. eexists _, _. split; [done|]. split; [done|].
      eapply (process_moved _ _ _ x d); fold c; cbn;
        rewrite ?Hstats4, ?Hwith, ?Hch; try done.
      exists (Mkdir c :: l). rewrite Hcalls4. cbn.
      by rewrite <- !app_assoc.
    + eexists _, _. split; [done|]. split; [done|].
      apply process_lost; fold c; cbn; rewrite ?Hstats4, ?Hdisk4, ?Hwith; auto.
  - (* the category directory is created *)
    cbv beta iota zeta. unfold bind at 1.
    match goal with |- context [resolve_destination _ _ _ ?st] =>
      set (s3 := st) end.
    set (es1 := es ++ [(c, Dir [])]).
    assert (Hcat1 : Entries.find c es1 = Some (Dir [])).
    { unfold es1. rewrite find_app, Hcat. simpl. by case_decide. }
    destruct (resolve_destination_run fuel c name s3 es1 [])
      as (d & s4 & Hres & Hresolved & Hdry4 & Hstats4 & Hdisk4 & l & Hcalls4);
      [done|done|simpl; lia|].
    rewrite Hres. unfold bind at 1.
    rewrite (shutil_move_fresh name c d s4 es1 []);
      [|by rewrite Hdisk4|done|apply Hresolved].
    assert (Hwith : with_category c es = es1)
      by (unfold with_category; by rewrite Hcat).
    assert (Hch : children c es = []) by (unfold children; by rewrite Hcat).
    assert (Hsrc1 : name ≠ c → Entries.find name es1 = Entries.find name es).
    { intros Hne. unfold es1. rewrite find_app. simpl.
      destruct (Entries.find name es); [done|]. by case_decide. }
    destruct (decide (name = c)) as [Heq|Hne].
    + assert (Hself : Entries.find name es1 = Some (Dir [])) by by rewrite Heq.
      rewrite Hself.
      eexists _, _. split; [done|]. split; [done|].
      apply process_lost; fold c; cbn; rewrite ?Hstats4, ?Hdisk4, ?Hwith; auto.
    + rewrite (Hsrc1 Hne).
      destruct (Entries.find name es) as [x|] eqn:Hsrc.
      * run_tail. eexists _, _. split; [done|]. split; [done|].
        eapply (process_moved _ _ _ x d); fold c; cbn;
          rewrite ?Hstats4, ?Hwith, ?Hch; try done.
        exists (Mkdir c :: l). rewrite Hcalls4. cbn.
        by rewrite <- !app_assoc.
      * eexists _, _. split; [done|]. split; [done|].
        apply process_lost; fold c; cbn; rewrite ?Hstats4, ?Hdisk4, ?Hwith; auto.
Qed.

Lemma commit_step fuel name s es :
  dry_run s = false → disk s = Some (Dir es) → name ≠ script_name →
  widest es + 1 < fuel →
  ∃ s', iteration fuel name s = (Ok tt, s') ∧
        dry_run s' = false ∧
        skipped (stats s') = skipped (stats s) ∧
        committed name es s s'.
Proof.
  intros Hdry Hdisk Hname Hfuel.
  destruct (process_file_commit fuel name s es Hdry Hdisk Hname Hfuel)
    as (r & s1 & Hrun & Hdry1 & Hproc).
  unfold iteration, try_except. rewrite Hrun.
  destruct Hproc as [data s1 Hcat Hd Hst|e s1 Hsrc Hd Hst
                    |x d s1 Hsrc Hne Hres Hd Hm Hs He Hcalls].
  - run_tail. eexists. split; [done|]. cbn. rewrite Hst.
    split; [done|]. split; [done|]. by eapply commit_blocked.
  - run_tail. eexists. split; [done|]. cbn. rewrite Hst.
    split; [done|]. split; [done|]. by apply commit_lost.
  - exists s1. split; [done|]. split; [done|]. split; [done|].
    by eapply commit_moved.
Qed.

(** A skipped or dry-run iteration never touches the disk. *)
Lemma process_file_script fuel s :
  process_file fuel script_name s = (Ok tt, s).
Proof. unfold process_file. by case_decide. Qed.

Lemma process_file_dry fuel name s :
  dry_run s = true → name ≠ script_name →
  process_file fuel name s =
    (Ok tt,
     {| dry_run := true;
        stats := {| moved := S (moved (stats s));
                    skipped := skipped (stats s);
                    errors := errors (stats s) |};
        disk := disk s;
        stdout := stdout s ++ [FileLine name; ArrowLine (get_category name)];
        calls := calls s |}).
Proof.
  intros Hdry Hname. unfold process_file. case_decide; [done|].
  run_tail. unfold get_dry_run. cbn. rewrite Hdry. cbn.
  by rewrite <- app_assoc.
Qed.

Lemma dry_step fuel name s :
  dry_run s = true →
  ∃ s', iteration fuel name s = (Ok tt, s') ∧
        dry_run s' = true ∧ disk s' = disk s ∧ calls s' = calls s ∧
        skipped (stats s') = skipped (stats s) ∧
        errors (stats s') = errors (stats s) ∧
        moved (stats s') =
          moved (stats s) + (if decide (name = script_name) then 0 else 1).
Proof.
  intros Hdry. unfold iteration, try_except. case_decide as Hname.
  - subst name. rewrite process_file_script. exists s.
    repeat split; try done; lia.
  - rewrite process_file_dry by done. eexists. split; [done|]. cbn.
    repeat split; try done; lia.
Qed.

(** ** The scan and the frame of a whole run *)

Lemma select_files_run es names : ∀ s,
  disk s = Some (Dir es) →
  select_files names s =
    (Ok (filter (λ name, is_regular es name = true) names),
     {| dry_run := dry_run s; stats := stats s; disk := disk s;
        stdout := stdout s; calls := calls s ++ (IsFile <$> names) |}).
Proof.
  induction names as [|f names IH]; intros s Hdisk; simpl.
  - unfold ret. rewrite app_nil_r. by destruct s.
  - unfold bind at 1. unfold is_file, syscall, Fs.is_file. rewrite Hdisk.
    assert (Hreg :
      match Entries.find f es with
      | Some (File _) => (Ok true, Some (Dir es))
      | _ => (Ok false, Some (Dir es))
      end = (Ok (is_regular es f), Some (Dir es))).
    { unfold is_regular. by destruct (Entries.find f es) as [[?|?]|]. }
    rewrite Hreg. unfold bind. rewrite IH by done. unfold ret.
    cbn [dry_run stats disk stdout calls]. rewrite <- app_assoc. simpl.
    f_equal.
    rewrite filter_cons. destruct (is_regular es f); by case_decide.
Qed.

Lemma print_summary_run s :
  print_summary s =
    (Ok tt,
     {| dry_run := dry_run s; stats := stats s; disk := disk s;
        stdout := stdout s ++ summary_lines (dry_run s) (stats s);
        calls := calls s |}).
Proof.
  unfold print_summary, summary_lines, bind, print, get_dry_run, get_stats, ret.
  cbn [dry_run stats disk stdout calls].
  destruct (dry_run s), (0 <? errors (stats s));
    cbn [dry_run stats disk stdout calls]; rewrite <- ?app_assoc; done.
Qed.

(** The state in which the per-file phase of a run starts. *)
Lemma organize_dir fuel s es :
  disk s = Some (Dir es) →
  organize fuel s =
    match scanned es with
    | [] => print NoFilesFound
    | _ :: _ =>
        print (Found (length (scanned es)));;
        for_each (scanned es) (iteration fuel);;
        print_summary
    end {| dry_run := dry_run s; stats := stats s; disk := disk s;
           stdout := stdout s ++ header_lines (dry_run s);
           calls := calls s ++ Iterdir :: (IsFile <$> Entries.names es) |}.
Proof.
  intros Hdisk. unfold organize.
  unfold bind at 1 2 3 4 5 6 7 8.
  unfold print at 1 2 3 6, get_dry_run, iterdir, syscall, Fs.iterdir.
  cbn [dry_run stats disk stdout calls]. rewrite Hdisk.
  destruct (dry_run s) eqn:Hdry;
    unfold bind, print, ret; cbn [dry_run stats disk stdout calls];
    rewrite (select_files_run es) by done;
    cbn [dry_run stats disk stdout calls]; fold (scanned es);
    unfold header_lines; rewrite <- !app_assoc; simpl;
    by destruct (scanned es).
Qed.

(** ** Frame rules *)

Section Frame.
Context (R : state → state → Prop) `{!PreOrder R}.

Lemma preserves_ret {A} (a : A) : preserves R (ret a).
Proof. intros s. simpl. reflexivity. Qed.

Lemma preserves_timeout {A} : preserves R (@timeout A).
Proof. intros s. simpl. reflexivity. Qed.

Lemma preserves_bind {A B} (m : M A) (k : A → M B) :
  preserves R m → (∀ a, preserves R (k a)) → preserves R (bind m k).
Proof.
  intros Hm Hk s. unfold bind. specialize (Hm s).
  destruct (m s) as [[a|e|] s1]; simpl in *; [|done..].
  etrans; [done|]. apply Hk.
Qed.

Lemma preserves_try {A} (m : M A) (h : exn → M A) :
  preserves R m → (∀ e, preserves R (h e)) → preserves R (try_except m h).
Proof.
  intros Hm Hh s. unfold try_except. specialize (Hm s).
  destruct (m s) as [[a|e|] s1]; simpl in *; [done| |done].
  etrans; [done|]. apply Hh.
Qed.

Lemma preserves_for_each {A} (xs : list A) (body : A → M unit) :
  (∀ x, preserves R (body x)) → preserves R (for_each xs body).
Proof.
  intros Hbody. induction xs as [|x xs IH]; simpl.
  - apply preserves_ret.
  - apply preserves_bind; [apply Hbody|]. intros _. apply IH.
Qed.

Lemma preserves_if {A} (b : bool) (m1 m2 : M A) :
  preserves R m1 → preserves R m2 → preserves R (if b then m1 else m2).
Proof. by destruct b. Qed.

End Frame.

Lemma settings_print l : preserves same_settings (print l).
Proof. by intros s. Qed.

Lemma settings_syscall {A} c (f : option node → outcome A * option node) :
  preserves same_settings (syscall c f).
Proof. intros s. unfold syscall. by destruct (f (disk s)). Qed.

Lemma settings_incr_moved : preserves same_settings incr_moved.
Proof. by intros s. Qed.

Lemma settings_incr_errors : preserves same_settings incr_errors.
Proof. by intros s. Qed.

Lemma settings_get_dry_run : preserves same_settings get_dry_run.
Proof. by intros s. Qed.

Lemma settings_get_stats : preserves same_settings get_stats.
Proof. by intros s. Qed.

Lemma settings_while_exists fuel category base ext :
  ∀ destination counter,
    preserves same_settings
      (while_exists fuel category base ext destination counter).
Proof.
  induction fuel as [|fuel IH]; intros destination counter; simpl.
  - apply preserves_timeout, _.
  - apply preserves_bind; [apply _|apply settings_syscall|].
    intros b. apply preserves_if; [apply IH|apply preserves_ret, _].
Qed.

Lemma settings_select_files names : preserves same_settings (select_files names).
Proof.
  induction names as [|f names IH]; simpl.
  - apply preserves_ret, _.
  - apply preserves_bind; [apply _|apply settings_syscall|]. intros b.
    apply preserves_bind; [apply _|apply IH|]. intros. apply preserves_ret, _.
Qed.

Ltac frame_step :=
  first
    [ apply settings_print | apply settings_syscall | apply settings_incr_moved
    | apply settings_incr_errors | apply settings_get_dry_run
    | apply settings_get_stats | apply settings_while_exists
    | apply settings_select_files
    | apply preserves_ret; apply _
    | apply preserves_bind; [apply _| |intros ?]
    | apply preserves_try; [apply _| |intros ?]
    | apply preserves_for_each; [apply _|intros ?]
    | apply preserves_if
    | match goal with |- preserves _ (match ?x with _ => _ end) =>
        destruct x end ].

Ltac frame := repeat frame_step.

Lemma settings_iteration fuel name : preserves same_settings (iteration fuel name).
Proof.
  unfold iteration, process_file, resolve_destination, on_error, mkdir,
    exists_, shutil_move.
  frame.
Qed.

Lemma settings_organize fuel : preserves same_settings (organize fuel).
Proof.
  unfold organize, print_summary, iterdir.
  repeat first [apply settings_iteration | frame_step].
Qed.

(** ** The per-file loop *)

Lemma handled_cons name files :
  handled (name :: files) =
  (if decide (name = script_name) then 0 else 1) + handled files.
Proof.
  unfold handled. rewrite filter_cons.
  by repeat case_decide.
Qed.

(** In preview mode the loop only counts. *)
Lemma dry_loop fuel files : ∀ s,
  dry_run s = true →
  ∃ s', for_each files (iteration fuel) s = (Ok tt, s') ∧
        dry_run s' = true ∧ disk s' = disk s ∧ calls s' = calls s ∧
        skipped (stats s') = skipped (stats s) ∧
        errors (stats s') = errors (stats s) ∧
        moved (stats s') = moved (stats s) + handled files.
Proof.
  induction files as [|f files IH]; intros s Hdry; simpl.
  - exists s. unfold ret, handled. simpl. repeat split; try done; lia.
  - destruct (dry_step fuel f s Hdry)
      as (s1 & Hrun & Hdry1 & Hdisk1 & Hcalls1 & Hsk1 & Herr1 & Hmov1).
    destruct (IH s1 Hdry1)
      as (s' & Hrun' & Hdry' & Hdisk' & Hcalls' & Hsk' & Herr' & Hmov').
    exists s'. unfold bind. rewrite Hrun. split; [done|].
    rewrite handled_cons. repeat split; try congruence. lia.
Qed.

Lemma with_category_widest category es :
  widest (with_category category es) = widest es.
Proof.
  unfold with_category. destruct (Entries.find category es); [done|].
  rewrite widest_app. simpl. lia.
Qed.

Lemma children_widest category es : length (children category es) ≤ widest es.
Proof.
  unfold children.
  destruct (Entries.find category es) as [[?|ch]|] eqn:Hcat; simpl; try lia.
  by eapply widest_find.
Qed.

(** An iteration keeps the source a directory and widens its
    sub-directories by at most one entry. *)
Lemma committed_disk name es s s' :
  disk s = Some (Dir es) → committed name es s s' →
  ∃ es', disk s' = Some (Dir es') ∧ widest es' ≤ widest es + 1.
Proof.
  intros Hdisk [data Hcat Hd _ _|Hsrc Hd _ _|x d Hsrc Hne Hres Hd _ _ _].
  - exists es. split; [congruence|lia].
  - eexists. split; [done|]. rewrite with_category_widest. lia.
  - eexists. split; [done|].
    etrans; [apply widest_set_dir|].
    rewrite length_app. simpl.
    pose proof (children_widest (get_category name) es).
    pose proof (widest_remove name (with_category (get_category name) es)).
    rewrite with_category_widest in *. lia.
Qed.

(** The invariant rule for the commit-mode loop: [P] relates the files still
    to be processed with the current state. *)
Lemma commit_loop fuel (P : list string → state → Prop) :
  (∀ xs s, P (script_name :: xs) s → P xs s) →
  (∀ x xs s s' es,
      P (x :: xs) s → x ≠ script_name →
      dry_run s = false → disk s = Some (Dir es) →
      dry_run s' = false → skipped (stats s') = skipped (stats s) →
      committed x es s s' → P xs s') →
  ∀ xs s es,
    dry_run s = false → disk s = Some (Dir es) →
    widest es + length xs + 1 < fuel → P xs s →
    ∃ s' es', for_each xs (iteration fuel) s = (Ok tt, s') ∧
              dry_run s' = false ∧ disk s' = Some (Dir es') ∧ P [] s'.
Proof.
  intros Hskip Hstep.
  induction xs as [|x xs IH]; intros s es Hdry Hdisk Hfuel HP; simpl.
  - by exists s, es.
  - simpl in Hfuel. unfold bind.
    destruct (decide (x = script_name)) as [->|Hne].
    + unfold iteration, try_except. rewrite process_file_script.
      apply (IH s es); [done|done|lia|by apply Hskip].
    + destruct (commit_step fuel x s es) as (s1 & Hrun & Hdry1 & Hsk1 & Hcom);
        [done|done|done|lia|].
      rewrite Hrun.
      destruct (committed_disk x es s s1 Hdisk Hcom) as (es1 & Hdisk1 & Hw).
      apply (IH s1 es1); [done|done|lia|by eapply Hstep].
Qed.

(** ** Whole runs over an existing source directory *)

(** A preview run: only the scan reaches the disk, and [moved] counts the
    scanned files other than the script. *)
Lemma organize_dry fuel es s :
  dry_run s = true → disk s = Some (Dir es) →
  ∃ s', organize fuel s = (Ok tt, s') ∧
        dry_run s' = true ∧ disk s' = disk s ∧
        calls s' = calls s ++ Iterdir :: (IsFile <$> Entries.names es) ∧
        skipped (stats s') = skipped (stats s) ∧
        errors (stats s') = errors (stats s) ∧
        moved (stats s') = moved (stats s) + handled (scanned es) ∧
        match scanned es with
        | [] => stdout s' = stdout s ++ header_lines true ++ [NoFilesFound]
        | _ :: _ =>
            ∃ before, stdout s' = before ++ summary_lines true (stats s')
        end.
Proof.
  intros Hdry Hdisk. rewrite (organize_dir fuel s es Hdisk).
  destruct (scanned es) as [|f files] eqn:Hscan.
  - unfold print. cbn [dry_run stats disk stdout calls].
    eexists. split; [done|]. cbn. rewrite Hdry, <- app_assoc.
    repeat split; try done; unfold handled; simpl; lia.
  - unfold bind. unfold print at 1. cbn [dry_run stats disk stdout calls].
    match goal with |- context [for_each _ _ ?st] => set (s0 := st) end.
    destruct (dry_loop fuel (f :: files) s0)
      as (s1 & Hrun & Hdry1 & Hdisk1 & Hcalls1 & Hsk1 & Herr1 & Hmov1); [done|].
    rewrite Hrun, print_summary_run.
    eexists. split; [done|]. cbn. rewrite Hdry1.
    repeat split; try done. by eexists.
Qed.

(** A commit run, with an invariant [P] of the per-file loop; [sl] is the
    state the loop ends in (the state after the scan when no file was
    found). *)
Lemma organize_commit fuel es s (P : list string → state → Prop) :
  dry_run s = false → disk s = Some (Dir es) →
  widest es + length (scanned es) + 1 < fuel →
  (∀ xs st, P (script_name :: xs) st → P xs st) →
  (∀ x xs st st' es0,
      P (x :: xs) st → x ≠ script_name →
      dry_run st = false → disk st = Some (Dir es0) →
      dry_run st' = false → skipped (stats st') = skipped (stats st) →
      committed x es0 st st' → P xs st') →
  (∀ s0, stats s0 = stats s → disk s0 = disk s → P (scanned es) s0) →
  ∃ s' sl es',
    organize fuel s = (Ok tt, s') ∧ P [] sl ∧
    dry_run s' = false ∧ stats s' = stats sl ∧
    disk s' = Some (Dir es') ∧ disk sl = Some (Dir es') ∧
    match scanned es with
    | [] => stdout s' = stdout s ++ header_lines false ++ [NoFilesFound]
    | _ :: _ => ∃ before, stdout s' = before ++ summary_lines false (stats s')
    end.
Proof.
  intros Hdry Hdisk Hfuel Hskip Hstep Hinit.
  rewrite (organize_dir fuel s es Hdisk).
  destruct (scanned es) as [|f files] eqn:Hscan.
  - unfold print. cbn [dry_run stats disk stdout calls].
    eexists _, s, es. split; [done|]. cbn. rewrite Hdry, <- app_assoc.
    repeat split; try done. by apply Hinit.
  - unfold bind. unfold print at 1. cbn [dry_run stats disk stdout calls].
    match goal with |- context [for_each _ _ ?st] => set (s0 := st) end.
    destruct (commit_loop fuel P Hskip Hstep (f :: files) s0 es)
      as (sl & es' & Hrun & Hdryl & Hdiskl & HP); [done|done|done| |].
    { by apply Hinit. }
    rewrite Hrun, print_summary_run.
    eexists _, sl, es'. split; [done|]. cbn. rewrite Hdryl.
    repeat split; try done. by eexists.
Qed.

(** ** A source path that is not a directory *)

Lemma organize_not_dir fuel s :
  (∀ es, disk s ≠ Some (Dir es)) →
  organize fuel s =
    (Raise match disk s with
           | Some _ => NotADirectoryError
           | None => FileNotFoundError
           end,
     {| dry_run := dry_run s; stats := stats s; disk := disk s;
        stdout := stdout s ++ header_lines (dry_run s);
        calls := calls s ++ [Iterdir] |}).
Proof.
  intros Hnot. unfold organize.
  unfold bind at 1 2 3 4 5 6 7.
  unfold print at 1 2 3 6, get_dry_run, iterdir, syscall, Fs.iterdir.
  cbn [dry_run stats disk stdout calls].
  destruct (disk s) as [[data|es]|] eqn:Hdisk; [|by destruct (Hnot es)|];
    destruct (dry_run s);
    unfold bind, print, ret; cbn [dry_run stats disk stdout calls];
    rewrite ?Hdisk; unfold header_lines; by rewrite <- !app_assoc.
Qed.

(** C5: when the source path does not exist or is not a directory, the run
    ends with the exception the directory listing raises, before any
    per-file work: the only call is the failed listing, the statistics are
    untouched and no summary is printed, and the disk is unchanged. *)
Theorem missing_directory_is_fatal dry fuel d :
  (∀ es, d ≠ Some (Dir es)) →
  ∃ e s', organize fuel (init dry d) = (Raise e, s') ∧
          DirectoryNotFound e ∧
          disk s' = d ∧
          stats s' = {| moved := 0; skipped := 0; errors := 0 |} ∧
          calls s' = [Iterdir] ∧
          stdout s' = header_lines dry.
Proof.
  intros Hnot. rewrite organize_not_dir by done.
  eexists _, _. split; [done|]. cbn.
  split; [|done]. unfold DirectoryNotFound. destruct d; auto.
Qed.

Lemma missing_directory_is_fatal_witness :
  ∃ e s', organize 0 (init false None) = (Raise e, s') ∧
          DirectoryNotFound e ∧
          disk s' = None ∧
          stats s' = {| moved := 0; skipped := 0; errors := 0 |} ∧
          calls s' = [Iterdir] ∧
          stdout s' = header_lines false.
Proof. apply (missing_directory_is_fatal false 0 None). intros es; discriminate. Defined.

(** ** Preview runs *)

(** C3: a preview run leaves the disk exactly as it found it, whatever the
    source path holds: the only calls it makes are the directory listing and
    the is-file tests of the scan, so no directory is created and no file is
    moved or renamed. *)
Theorem preview_leaves_disk_unchanged fuel d :
  let s' := (organize fuel (init true d)).2 in
  disk s' = d ∧ Forall scan_call (calls s').
Proof.
  cbv zeta. destruct d as [[data|es]|].
  - rewrite organize_not_dir by done.
    cbn. split; [done|]. by repeat constructor.
  - destruct (organize_dry fuel es (init true (Some (Dir es))))
      as (s' & Hrun & _ & Hdisk & Hcalls & _); [done..|].
    rewrite Hrun. cbn [snd]. split; [done|]. rewrite Hcalls. cbn.
    constructor; [done|]. apply Forall_fmap, Forall_true. by intros x.
  - rewrite organize_not_dir by done.
    cbn. split; [done|]. by repeat constructor.
Qed.



(** ** The [skipped] counter *)

(** C9: the statistics record has a [skipped] counter next to [moved] and
    [errors]; it starts at 0, no run changes it, whatever the mode, the fuel
    and the outcome, and so every run of a fresh organizer ends with
    [skipped] equal to 0. *)
Theorem skipped_stays_zero dry fuel d :
  skipped (stats (init dry d)) = 0 ∧
  (∀ s, skipped (stats (organize fuel s).2) = skipped (stats s)) ∧
  skipped (stats (organize fuel (init dry d)).2) = 0.
Proof.
  split; [done|]. split.
  - intros s. apply (settings_organize fuel s).
  - by destruct (settings_organize fuel (init dry d)) as [_ ->].
Qed.

(** ** How a move changes what the source directory holds *)

Lemma find_with_category category name es :
  Entries.find name (with_category category es) =
  match Entries.find name es with
  | Some x => Some x
  | None => if decide (name = category) then Some (Dir []) else None
  end.
Proof.
  unfold with_category.
  destruct (Entries.find category es) as [y|] eqn:Hcat.
  - destruct (Entries.find name es) eqn:Hname; [done|].
    case_decide; [congruence|done].
  - rewrite find_app. simpl.
    destruct (Entries.find name es); [done|]. by repeat case_decide.
Qed.

Lemma children_with_category category c es :
  children c (with_category category es) = children c es.
Proof.
  unfold children. rewrite find_with_category.
  destruct (Entries.find c es); [done|]. by case_decide.
Qed.

Lemma children_remove name c es :
  children c (Entries.remove name es) =
  if decide (c = name) then [] else children c es.
Proof. unfold children. rewrite find_remove. by case_decide. Qed.

Lemma children_set category ch c es :
  children c (Entries.set category (Dir ch) es) =
  if decide (c = category) then ch else children c es.
Proof. unfold children. rewrite find_set. by case_decide. Qed.

Lemma is_regular_with_category category name es :
  is_regular (with_category category es) name = is_regular es name.
Proof.
  unfold is_regular. rewrite find_with_category.
  destruct (Entries.find name es); [done|]. by case_decide.
Qed.

Lemma is_regular_remove name m es :
  is_regular (Entries.remove name es) m =
  if decide (m = name) then false else is_regular es m.
Proof. unfold is_regular. rewrite find_remove. by case_decide. Qed.

Lemma is_regular_set_dir category ch m es :
  is_regular (Entries.set category (Dir ch) es) m =
  if decide (m = category) then false else is_regular es m.
Proof. unfold is_regular. rewrite find_set. by case_decide. Qed.

Lemma is_regular_scanned es name :
  name ∈ scanned es ↔ is_regular es name = true.
Proof.
  unfold scanned. rewrite list_elem_of_filter. split; [by intros [? _]|].
  intros Hreg. split; [done|]. unfold is_regular in Hreg.
  destruct (Entries.find name es) eqn:Hfind; [|done].
  by eapply find_Some_names.
Qed.

(** The disk after a file has been moved to a fresh destination. *)
Lemma moved_disk name category destination x es (es' : list (string * node)) :
  es' = Entries.set category
          (Dir (children category es ++ [(destination, x)]))
          (Entries.remove name (with_category category es)) →
  name ≠ category →
  Entries.find destination (children category es) = None →
  Entries.find name es' = None ∧
  find2 category destination es' = Some x ∧
  (∀ m, is_regular es' m =
        if decide (m = category) then false
        else if decide (m = name) then false else is_regular es m) ∧
  (∀ c n y, c ≠ name → find2 c n es = Some y → find2 c n es' = Some y).
Proof.
  intros -> Hne Hfree. repeat split.
  - rewrite find_set, find_remove. by repeat case_decide.
  - unfold find2. rewrite children_set. case_decide; [|done].
    rewrite find_app, Hfree. simpl. by case_decide.
  - intros m. rewrite is_regular_set_dir. case_decide; [done|].
    rewrite is_regular_remove. case_decide; [done|].
    apply is_regular_with_category.
  - intros c n y Hc Hfind. unfold find2 in *. rewrite children_set.
    case_decide as Hcat.
    + subst c. rewrite find_app, Hfind. done.
    + rewrite children_remove. case_decide; [done|].
      by rewrite children_with_category.
Qed.

(** ** Collision resolution *)

(** C2: in commit mode, for a scanned regular file whose category directory
    can be used, the [try] body returns normally having moved the file to a
    destination that did not exist in the category directory: the file's own
    name when that is free, otherwise the name with [_n] before the
    extension for the least [n] from 1 whose name is free, every smaller
    number having been found taken.  The existence test on the chosen
    destination is the last call before the move; the file arrives there with
    its contents, and every entry that was in a sub-directory of the source
    directory is still there, unchanged. *)
Theorem collision_resolution_never_overwrites fuel name data s es :
  dry_run s = false → disk s = Some (Dir es) → name ≠ script_name →
  Entries.find name es = Some (File data) →
  (∀ d, Entries.find (get_category name) es ≠ Some (File d)) →
  widest es + 1 < fuel →
  ∃ s' es' destination,
    process_file fuel name s = (Ok tt, s') ∧
    disk s' = Some (Dir es') ∧
    Entries.find destination (children (get_category name) es) = None ∧
    (Entries.find name (children (get_category name) es) = None →
     destination = name) ∧
    (is_Some (Entries.find name (children (get_category name) es)) →
     ∃ n, 1 ≤ n ∧
       destination = numbered (Path.stem name) n (Path.suffix name) ∧
       ∀ k, 1 ≤ k < n →
         is_Some (Entries.find
                    (numbered (Path.stem name) k (Path.suffix name))
                    (children (get_category name) es))) ∧
    (∃ l, calls s' =
            calls s ++ l ++
            [PathExists (get_category name) destination;
             Move name (get_category name) destination]) ∧
    find2 (get_category name) destination es' = Some (File data) ∧
    Entries.find name es' = None ∧
    (∀ c n x, find2 c n es = Some x → find2 c n es' = Some x).
Proof.
  intros Hdry Hdisk Hname Hsrc Hcat Hfuel.
  destruct (process_file_commit fuel name s es Hdry Hdisk Hname Hfuel)
    as (r & s1 & Hrun & Hdry1 & Hproc).
  destruct Hproc as [data' s1 Hblocked _ _|e s1 [Hnone|Hself] _ _
                    |x d s1 Hsrc' Hne [Hfree Hres] Hd Hm Hs He Hcalls].
  - by destruct (Hcat data').
  - congruence.
  - destruct (Hcat data). by rewrite <- Hself.
  - assert (x = File data) as -> by congruence.
    destruct (moved_disk name (get_category name) d (File data) es _ eq_refl
                Hne Hfree) as (Hgone & Hthere & _ & Hkeep).
    eexists s1, _, d. split; [done|]. split; [done|]. split; [done|].
    split; [|split; [|split; [done|split; [done|split; [done|]]]]].
    + intros Hnone. by rewrite Hnone in Hres.
    + intros [y Hy]. by rewrite Hy in Hres.
    + intros c n y Hfind. apply Hkeep; [|done]. intros ->.
      unfold find2, children in Hfind. by rewrite Hsrc in Hfind.
Qed.

(** ** Commit runs *)

(** What a commit run of a fresh organizer achieves: it returns, every
    scanned file other than the script is counted once, no regular file
    appears in the source directory, a run without errors leaves no regular
    file there but possibly the script, and a run that moved something took
    a regular file out of the source directory. *)
Lemma commit_run fuel es :
  widest es + length (scanned es) + 1 < fuel →
  ∃ s' es',
    organize fuel (init false (Some (Dir es))) = (Ok tt, s') ∧
    dry_run s' = false ∧ disk s' = Some (Dir es') ∧
    moved (stats s') + errors (stats s') = handled (scanned es) ∧
    (∀ m, is_regular es' m = true → is_regular es m = true) ∧
    (errors (stats s') = 0 →
     ∀ m, is_regular es' m = true → m = script_name) ∧
    (0 < moved (stats s') →
     ∃ x, is_regular es x = true ∧ is_regular es' x = false) ∧
    match scanned es with
    | [] => stdout s' = header_lines false ++ [NoFilesFound]
    | _ :: _ => yields_summary s'
    end.
Proof.
  intros Hfuel.
  pose (P := λ (xs : list string) (st : state),
    ∃ es1, disk st = Some (Dir es1) ∧
      moved (stats st) + errors (stats st) + handled xs
        = handled (scanned es) ∧
      (∀ x, x ∈ xs → is_regular es x = true) ∧
      (∀ m, is_regular es1 m = true → is_regular es m = true) ∧
      (errors (stats st) = 0 →
       ∀ m, is_regular es1 m = true → m = script_name ∨ m ∈ xs) ∧
      (0 < moved (stats st) →
       ∃ x, is_regular es x = true ∧ is_regular es1 x = false)).
  destruct (organize_commit fuel es (init false (Some (Dir es))) P)
    as (s' & sl & es' & Hrun & HP & Hdry & Hstats & Hdisk & Hdiskl & Hout);
    [done|done|done| | | |].
  - (* the script is skipped *)
    intros xs st (es1 & Hd & Hcount & Hreg & Hmono & Herr & Hmoved).
    exists es1. rewrite handled_cons in Hcount.
    case_decide; [|done]. repeat split; try done.
    + intros x Hx. apply Hreg. by right.
    + intros Hzero m Hm. destruct (Herr Hzero m Hm) as [?|Hin]; [by left|].
      apply elem_of_cons in Hin as [?|?]; [by left|by right].
  - (* one iteration *)
    intros x xs st st' es0 (es1 & Hd & Hcount & Hreg & Hmono & Herr & Hmoved)
      Hx _ Hd0 _ _ Hcom.
    assert (es1 = es0) as -> by congruence.
    rewrite handled_cons in Hcount. case_decide; [done|].
    assert (Hregx : is_regular es x = true) by (apply Hreg; by left).
    assert (Hreg' : ∀ y, y ∈ xs → is_regular es y = true)
      by (intros y Hy; apply Hreg; by right).
    destruct Hcom as [data Hcat Hd' Hm He|Hsrc Hd' Hm He
                     |y d Hsrc Hne [Hfree _] Hd' Hm He _].
    + exists es0. repeat split; try done; try congruence; try lia.
      intros Hpos. apply Hmoved. lia.
    + eexists. split; [done|]. repeat split; try done; try lia.
      * intros m. rewrite is_regular_with_category. apply Hmono.
      * intros Hpos. destruct Hmoved as [z [Hz1 Hz2]]; [lia|]. exists z.
        by rewrite is_regular_with_category.
    + eexists. split; [done|].
      destruct (moved_disk x (get_category x) d y es0 _ eq_refl Hne Hfree)
        as (_ & _ & Hform & _).
      repeat split; try done; try lia.
      * intros m. rewrite Hform. repeat case_decide; try done. apply Hmono.
      * intros Hzero m. rewrite Hform. repeat case_decide; try done.
        intros Hmreg.
        destruct (Herr ltac:(lia) m Hmreg) as [?|Hin]; [by left|].
        apply elem_of_cons in Hin as [?|?]; [done|by right].
      * intros _. exists x. split; [done|]. rewrite Hform.
        by repeat case_decide.
  - (* after the scan *)
    intros s0 Hst Hd. exists es. rewrite Hst. cbn. repeat split; try done.
    + intros x. apply is_regular_scanned.
    + intros _ m Hm. right. by apply is_regular_scanned.
    + lia.
  - destruct HP as (es1 & Hd & Hcount & _ & Hmono & Herr & Hmoved).
    assert (es1 = es') as -> by congruence.
    exists s', es'. rewrite Hstats. unfold handled in Hcount at 1.
    simpl in Hcount.
    split; [done|]. split; [done|]. split; [done|]. split; [lia|].
    split; [done|]. split; [|split; [done|]].
    + intros Hzero m Hm. destruct (Herr Hzero m Hm) as [?|Hin]; [done|].
      by apply elem_of_nil in Hin.
    + destruct (scanned es); [done|]. unfold yields_summary.
      by rewrite Hdry.
Qed.

Lemma collision_resolution_never_overwrites_witness :
  ∃ s' es' destination,
    process_file 10 "report.txt" (init false (Some (Dir sample_reports)))
      = (Ok tt, s') ∧
    disk s' = Some (Dir es') ∧
    Entries.find destination
      (children (get_category "report.txt") sample_reports) = None ∧
    (Entries.find "report.txt"
       (children (get_category "report.txt") sample_reports) = None →
     destination = "report.txt") ∧
    (is_Some (Entries.find "report.txt"
                (children (get_category "report.txt") sample_reports)) →
     ∃ n, 1 ≤ n ∧
       destination =
         numbered (Path.stem "report.txt") n (Path.suffix "report.txt") ∧
       ∀ k, 1 ≤ k < n →
         is_Some (Entries.find
                    (numbered (Path.stem "report.txt") k
                       (Path.suffix "report.txt"))
                    (children (get_category "report.txt") sample_reports))) ∧
    (∃ l, calls s' =
            calls (init false (Some (Dir sample_reports))) ++ l ++
            [PathExists (get_category "report.txt") destination;
             Move "report.txt" (get_category "report.txt") destination]) ∧
    find2 (get_category "report.txt") destination es' = Some (File "new") ∧
    Entries.find "report.txt" es' = None ∧
    (∀ c n x, find2 c n sample_reports = Some x → find2 c n es' = Some x).
Proof.
  apply (collision_resolution_never_overwrites 10 "report.txt" "new"
           (init false (Some (Dir sample_reports))) sample_reports).
  - reflexivity.
  - reflexivity.
  - discriminate.
  - reflexivity.
  - intros d. vm_compute. discriminate.
  - vm_compute. lia.
Defined.

(** ** Per-file outcomes *)

(** C6: in either mode one iteration of the per-file loop returns normally,
    whatever the [try] body did.  When the body returns, [moved] goes up by
    one (the script itself is passed over and counts nowhere) and [errors]
    is unchanged; when the body raises, the handler puts [errors] up by one,
    leaves [moved] alone, and the exception goes no further.  The loop then
    goes on with the remaining entries. *)
Theorem per_file_outcomes_are_counted fuel name s es :
  disk s = Some (Dir es) → widest es + 1 < fuel →
  ∃ s', iteration fuel name s = (Ok tt, s') ∧
    match process_file fuel name s with
    | (Ok _, s1) =>
        s' = s1 ∧
        errors (stats s') = errors (stats s) ∧
        moved (stats s') =
          moved (stats s) + (if decide (name = script_name) then 0 else 1)
    | (Raise e, s1) =>
        s' = (on_error e s1).2 ∧
        errors (stats s') = S (errors (stats s)) ∧
        moved (stats s') = moved (stats s)
    | (Timeout, _) => False
    end ∧
    ∀ rest, for_each (name :: rest) (iteration fuel) s
            = for_each rest (iteration fuel) s'.
Proof.
  intros Hdisk Hfuel.
  assert (Hnext : ∀ s', iteration fuel name s = (Ok tt, s') →
            ∀ rest, for_each (name :: rest) (iteration fuel) s
                    = for_each rest (iteration fuel) s').
  { intros s' Hrun rest. simpl. unfold bind. by rewrite Hrun. }
  destruct (decide (name = script_name)) as [->|Hname].
  - exists s. assert (Hrun : iteration fuel script_name s = (Ok tt, s))
      by (unfold iteration, try_except; by rewrite process_file_script).
    split; [done|]. split; [|by apply Hnext].
    rewrite process_file_script. repeat split; try done; lia.
  - destruct (dry_run s) eqn:Hdry.
    + eexists.
      assert (Hrun : iteration fuel name s = process_file fuel name s)
        by (unfold iteration, try_except; by rewrite process_file_dry).
      rewrite Hrun, process_file_dry by done.
      split; [done|]. split; [|apply Hnext; by rewrite Hrun, process_file_dry].
      cbn. repeat split; lia.
    + destruct (process_file_commit fuel name s es Hdry Hdisk Hname Hfuel)
        as (r & s1 & Hrun & Hdry1 & Hproc).
      assert (Hit : iteration fuel name s =
                    match r with
                    | Raise e => on_error e s1
                    | _ => (r, s1)
                    end)
        by (unfold iteration, try_except; rewrite Hrun; by destruct r).
      rewrite Hrun.
      destruct Hproc as [data s1 Hcat Hd Hst|e s1 Hsrc Hd Hst
                        |x d s1 Hsrc Hne Hres Hd Hm Hs He Hcalls].
      * eexists. split; [by rewrite Hit|].
        split; [|apply Hnext; by rewrite Hit]. cbn. by rewrite Hst.
      * eexists. split; [by rewrite Hit|].
        split; [|apply Hnext; by rewrite Hit]. cbn. by rewrite Hst.
      * exists s1. split; [by rewrite Hit|].
        split; [|apply Hnext; by rewrite Hit]. repeat split; [done|lia].
Qed.

Lemma per_file_outcomes_are_counted_witness :
  ∃ s', iteration 10 "a.jpg" (init false (Some (Dir sample_blocked)))
          = (Ok tt, s') ∧
    match process_file 10 "a.jpg" (init false (Some (Dir sample_blocked))) with
    | (Ok _, s1) =>
        s' = s1 ∧
        errors (stats s') =
          errors (stats (init false (Some (Dir sample_blocked)))) ∧
        moved (stats s') =
          moved (stats (init false (Some (Dir sample_blocked))))
          + (if decide ("a.jpg" = script_name) then 0 else 1)
    | (Raise e, s1) =>
        s' = (on_error e s1).2 ∧
        errors (stats s') =
          S (errors (stats (init false (Some (Dir sample_blocked))))) ∧
        moved (stats s') =
          moved (stats (init false (Some (Dir sample_blocked))))
    | (Timeout, _) => False
    end ∧
    ∀ rest,
      for_each ("a.jpg" :: rest) (iteration 10)
        (init false (Some (Dir sample_blocked)))
      = for_each rest (iteration 10) s'.
Proof.
  apply (per_file_outcomes_are_counted 10 "a.jpg"
           (init false (Some (Dir sample_blocked))) sample_blocked).
  - reflexivity.
  - vm_compute. lia.
Defined.

(** ** Completion and the summary *)

Lemma summary_lines_last dry st :
  last (summary_lines dry st) = Some Blank.
Proof.
  unfold summary_lines. by rewrite app_assoc, last_snoc.
Qed.

Lemma no_files_no_summary dry s :
  stdout s = header_lines dry ++ [NoFilesFound] → ¬ yields_summary s.
Proof.
  intros Hout [before Hsum]. rewrite Hout in Hsum.
  apply (f_equal last) in Hsum.
  rewrite last_snoc, last_app, summary_lines_last in Hsum. discriminate.
Qed.

(** The claim of C4 fails on an empty source directory: the run returns
    after the no-files notice and never prints the summary. *)
Lemma empty_directory_yields_no_summary :
  ∃ s', organize 1 (init false (Some (Dir []))) = (Ok tt, s') ∧
        stdout s' = [Rule; Title; Rule; Scanning; NoFilesFound] ∧
        ¬ yields_summary s'.
Proof.
  eexists. split; [reflexivity|]. split; [reflexivity|].
  by apply (no_files_no_summary false).
Qed.

(** C4, amended: over an existing source directory a run in either mode
    returns normally, with enough fuel for the collision loop, and every
    scanned file other than the script is counted as moved or as an error,
    also when every per-file operation failed.  The summary of the final
    statistics is printed exactly when the scan found a regular file; when it
    found none the run prints the no-files notice instead and the statistics
    stay at zero. *)
Theorem run_completes_and_summarises_found_files dry fuel es :
  widest es + length (scanned es) + 1 < fuel →
  ∃ s', organize fuel (init dry (Some (Dir es))) = (Ok tt, s') ∧
        moved (stats s') + errors (stats s') = handled (scanned es) ∧
        (scanned es ≠ [] → yields_summary s') ∧
        (scanned es = [] →
         stats s' = {| moved := 0; skipped := 0; errors := 0 |} ∧
         stdout s' = header_lines dry ++ [NoFilesFound] ∧
         ¬ yields_summary s').
Proof.
  intros Hfuel. destruct dry.
  - destruct (organize_dry fuel es (init true (Some (Dir es))))
      as (s' & Hrun & Hdry & _ & _ & Hsk & Herr & Hmov & Hout); [done..|].
    exists s'. split; [done|]. cbn in Hsk, Herr, Hmov. split; [lia|].
    split.
    + intros Hne. destruct (scanned es); [done|].
      unfold yields_summary. by rewrite Hdry.
    + intros Hnil. rewrite Hnil in Hout, Hmov. cbn in Hout, Hmov.
      split; [|split; [done|by apply (no_files_no_summary true)]].
      destruct (stats s'). cbn in *. by subst.
  - destruct (commit_run fuel es Hfuel)
      as (s' & es' & Hrun & Hdry & _ & Hcount & _ & _ & _ & Hout).
    exists s'. split; [done|]. split; [done|]. split.
    + intros Hne. by destruct (scanned es).
    + intros Hnil. rewrite Hnil in Hout.
      split; [|split; [done|by apply (no_files_no_summary false)]].
      pose proof (settings_organize fuel (init false (Some (Dir es))))
        as [_ Hsk].
      rewrite Hrun, Hnil in *. cbn in Hsk, Hcount.
      destruct (stats s') as [m k e]. cbn in *. f_equal; lia.
Qed.

Lemma run_completes_and_summarises_found_files_witness :
  ∃ s', organize 10 (init false (Some (Dir sample_mixed))) = (Ok tt, s') ∧
        moved (stats s') + errors (stats s') = handled (scanned sample_mixed) ∧
        (scanned sample_mixed ≠ [] → yields_summary s') ∧
        (scanned sample_mixed = [] →
         stats s' = {| moved := 0; skipped := 0; errors := 0 |} ∧
         stdout s' = header_lines false ++ [NoFilesFound] ∧
         ¬ yields_summary s').
Proof.
  apply (run_completes_and_summarises_found_files false 10 sample_mixed).
  vm_compute. lia.
Defined.

(** ** Preview against commit *)




(** ** A second commit run *)

Lemma skip_loop fuel files : ∀ s,
  (∀ f, f ∈ files → f = script_name) →
  for_each files (iteration fuel) s = (Ok tt, s).
Proof.
  induction files as [|f files IH]; intros s Hall; simpl; [done|].
  rewrite (Hall f) by by left.
  unfold bind, iteration at 1, try_except. rewrite process_file_script.
  apply IH. intros g Hg. apply Hall. by right.
Qed.

(** The claim of C8 fails when the first run met a per-file error: the image
    that could not be moved while a regular file was called [Images] stays
    in the source directory, and the second run moves it. *)
Lemma second_commit_can_move_a_file :
  let first := organize 10 (init false (Some (Dir sample_blocked))) in
  let second := organize 10 (init false (disk first.2)) in
  first.1 = Ok tt ∧
  disk first.2 =
    Some (Dir [("a.jpg", File "A"); ("Others", Dir [("Images", File "I")])]) ∧
  second.1 = Ok tt ∧
  moved (stats second.2) = 1.
Proof. vm_compute. by repeat split. Qed.

(** C8, amended: when a commit run ends without a per-file error, the only
    regular file that can remain in the source directory is the script
    itself, so the directory holds no regular file at all if the scan met no
    file of that name; a second commit run, with nothing added in between,
    then returns with [moved] and [errors] equal to 0 and leaves the disk as
    it is.  It prints the summary only when the script is there to be
    scanned; over a directory without regular files it prints the no-files
    notice. *)
Theorem second_commit_moves_nothing fuel fuel2 es :
  widest es + length (scanned es) + 1 < fuel →
  ∃ s1 es1,
    organize fuel (init false (Some (Dir es))) = (Ok tt, s1) ∧
    disk s1 = Some (Dir es1) ∧
    (errors (stats s1) = 0 →
     (∀ m, is_regular es1 m = true → m = script_name) ∧
     (script_name ∉ scanned es → scanned es1 = []) ∧
     ∃ s2, organize fuel2 (init false (disk s1)) = (Ok tt, s2) ∧
           moved (stats s2) = 0 ∧ errors (stats s2) = 0 ∧
           disk s2 = disk s1 ∧
           (scanned es1 = [] → ¬ yields_summary s2)).
Proof.
  intros Hfuel.
  destruct (commit_run fuel es Hfuel)
    as (s1 & es1 & Hrun & _ & Hdisk & _ & Hmono & Hclean & _).
  exists s1, es1. split; [done|]. split; [done|]. intros Hzero.
  specialize (Hclean Hzero).
  assert (Hall : ∀ f, f ∈ scanned es1 → f = script_name).
  { intros f Hf. by apply Hclean, is_regular_scanned. }
  split; [done|]. split.
  - intros Hnot. destruct (scanned es1) as [|f files] eqn:Hscan; [done|].
    destruct Hnot. rewrite <- (Hall f) by by left.
    apply is_regular_scanned, Hmono, is_regular_scanned.
    rewrite Hscan. by left.
  - rewrite Hdisk, (organize_dir fuel2 _ es1) by done.
    destruct (scanned es1) as [|f files] eqn:Hscan.
    + eexists. split; [done|]. cbn. repeat split; try done.
      intros _. by apply (no_files_no_summary false).
    + unfold bind. unfold print at 1. cbn [dry_run stats disk stdout calls].
      rewrite skip_loop by done.
      rewrite print_summary_run. eexists. split; [done|]. cbn.
      repeat split; try done.
Qed.

Lemma second_commit_moves_nothing_witness :
  ∃ s1 es1,
    organize 10 (init false (Some (Dir sample_mixed))) = (Ok tt, s1) ∧
    disk s1 = Some (Dir es1) ∧
    (errors (stats s1) = 0 →
     (∀ m, is_regular es1 m = true → m = script_name) ∧
     (script_name ∉ scanned sample_mixed → scanned es1 = []) ∧
     ∃ s2, organize 10 (init false (disk s1)) = (Ok tt, s2) ∧
           moved (stats s2) = 0 ∧ errors (stats s2) = 0 ∧
           disk s2 = disk s1 ∧
           (scanned es1 = [] → ¬ yields_summary s2)).
Proof.
  apply (second_commit_moves_nothing 10 10 sample_mixed).
  vm_compute. lia.
Defined.

(** ** The scenarios of the specification, run *)

Example commit_of_sample_mixed :
  let run := organize 10 (init false (Some (Dir sample_mixed))) in
  run.1 = Ok tt ∧
  stats run.2 = {| moved := 4; skipped := 0; errors := 0 |} ∧
  disk run.2 =
    Some (Dir [ ("Images", Dir [("a.jpg", File "A")]);
                ("Audio", Dir [("b.mp3", File "B")]);
                ("Others", Dir [("c.unknownext", File "C"); ("d", File "D")]) ]).
Proof. vm_compute. by repeat split. Qed.

Example commit_of_sample_reports :
  let run := organize 10 (init false (Some (Dir sample_reports))) in
  run.1 = Ok tt ∧
  stats run.2 = {| moved := 1; skipped := 0; errors := 0 |} ∧
  disk run.2 =
    Some (Dir [ ("Documents",
                 Dir [ ("report.txt", File "old");
                       ("report_1.txt", File "old1");
                       ("report_2.txt", File "new") ]) ]).
Proof. vm_compute. by repeat split. Qed.

Example short_fuel_cuts_the_collision_loop :
  (organize 2 (init false (Some (Dir sample_reports)))).1 = Timeout.
Proof. reflexivity. Qed.

(** * Further properties of the classifier *)

Lemma get_category_loop_range items extension :
  get_category_loop items extension ∈ items.*1 ++ ["Others"].
Proof.
  induction items as [|[c exts] items IH]; simpl.
  - by left.
  - case_bool_decide; [by left|by right].
Qed.

Lemma get_category_range name :
  get_category name ∈
    ["Images"; "Documents"; "Videos"; "Audio"; "Archives"; "Code";
     "Executables"; "Others"].
Proof. apply (get_category_loop_range CATEGORIES). Qed.

Lemma get_category_not_script name : get_category name ≠ script_name.
Proof.
  pose proof (get_category_range name) as Hin. intros Heq.
  rewrite Heq in Hin.
  repeat (apply elem_of_cons in Hin as [Hin|Hin]; [discriminate|]).
  by apply elem_of_nil in Hin.
Qed.

(** The extension lists of the table are pairwise disjoint: every listed
    extension is classified into the category that lists it. *)
Lemma table_is_unambiguous :
  Forall (λ '(c, exts),
            Forall (λ e, get_category_loop CATEGORIES e = c) exts)
    CATEGORIES.
Proof. repeat constructor. Qed.

(** No extension is listed twice, so the declaration order never decides:
    a file whose lower-cased suffix is listed under a category is classified
    into that category. *)
Theorem listed_extension_decides_category name category extensions :
  (category, extensions) ∈ CATEGORIES →
  Str.lower (Path.suffix name) ∈ extensions →
  get_category name = category.
Proof.
  intros Hcat Hext. pose proof table_is_unambiguous as Htable.
  rewrite Forall_forall in Htable. specialize (Htable _ Hcat). simpl in Htable.
  rewrite Forall_forall in Htable. by apply Htable.
Qed.

Lemma listed_extension_decides_category_witness :
  get_category "Holiday.JPEG" = "Images".
Proof.
  apply (listed_extension_decides_category "Holiday.JPEG" "Images"
           [".jpg"; ".jpeg"; ".png"; ".gif"; ".bmp"; ".svg"; ".webp"]).
  - by left.
  - vm_compute. by right; left.
Defined.

(** ** Letter case and dots *)

Lemma lower_char_dot c : Ascii.eqb (Str.lower_char c) "." = Ascii.eqb c ".".
Proof. by destruct c as [[] [] [] [] [] [] [] []]. Qed.

Lemma lower_char_idem c : Str.lower_char (Str.lower_char c) = Str.lower_char c.
Proof. by destruct c as [[] [] [] [] [] [] [] []]. Qed.

Lemma lower_idem s : Str.lower (Str.lower s) = Str.lower s.
Proof.
  induction s as [|a s IH]; simpl; [done|]. by rewrite lower_char_idem, IH.
Qed.

Lemma rfind_lower s : Str.rfind "." (Str.lower s) = Str.rfind "." s.
Proof.
  induction s as [|a s IH]; simpl; [done|]. by rewrite IH, lower_char_dot.
Qed.

Lemma len_lower s : Str.len (Str.lower s) = Str.len s.
Proof.
  unfold Str.len. f_equal.
  induction s as [|a s IH]; simpl; [done|]. by rewrite IH.
Qed.

Lemma slice_from_lower i : ∀ s,
  Str.slice_from i (Str.lower s) = Str.lower (Str.slice_from i s).
Proof.
  induction i as [|i IH]; intros [|a s]; simpl; try done.
Qed.

Lemma suffix_lower name :
  Path.suffix (Str.lower name) = Str.lower (Path.suffix name).
Proof.
  unfold Path.suffix. rewrite rfind_lower, len_lower.
  destruct (_ && _); [apply slice_from_lower|done].
Qed.

(** Classification ignores letter case: two names that differ only in the
    case of their ASCII letters get the same category. *)
Theorem get_category_ignores_case name1 name2 :
  Str.lower name1 = Str.lower name2 →
  get_category name1 = get_category name2.
Proof.
  intros Heq. unfold get_category.
  rewrite <- (lower_idem (Path.suffix name1)),
          <- (lower_idem (Path.suffix name2)).
  by rewrite <- !suffix_lower, Heq.
Qed.

Lemma get_category_ignores_case_witness :
  get_category "Report.PDF" = get_category "report.pdf".
Proof. apply (get_category_ignores_case "Report.PDF" "report.pdf"). reflexivity. Defined.

Lemma rfind_range c s : (-1 ≤ Str.rfind c s < Str.len s)%Z.
Proof.
  unfold Str.len. induction s as [|a s IH]; simpl; [lia|].
  destruct (0 <=? Str.rfind c s)%Z eqn:Hr; [lia|].
  destruct (Ascii.eqb a c); lia.
Qed.

Lemma rfind_app_last c s t :
  Str.rfind c t = (-1)%Z → Str.rfind c (s +:+ String c t) = Str.len s.
Proof.
  intros Ht. unfold Str.len. induction s as [|a s IH]; simpl.
  - rewrite Ht. simpl. by rewrite Ascii.eqb_refl.
  - rewrite IH. destruct (0 <=? _)%Z eqn:Hle; lia.
Qed.

Lemma rfind_app_none c s t :
  Str.rfind c t = (-1)%Z → Str.rfind c (s +:+ t) = Str.rfind c s.
Proof.
  intros Ht. induction s as [|a s IH]; simpl; [done|]. by rewrite IH.
Qed.

(** A name whose only dot is the first character, and a name that ends in a
    dot, have no suffix for pathlib and are classified as ['Others'], even
    when the characters after the leading dot spell a listed extension. *)
Theorem dot_files_are_others :
  (∀ rest, Str.rfind "." rest = (-1)%Z →
           get_category (String "." rest) = "Others") ∧
  (∀ name, get_category (name +:+ ".") = "Others").
Proof.
  split.
  - intros rest Hrest. unfold get_category, Path.suffix. simpl.
    by rewrite Hrest.
  - intros name. unfold get_category, Path.suffix.
    rewrite (rfind_app_last "." name "") by done.
    unfold Str.len. rewrite append_length. simpl.
    replace (Z.of_nat (String.length name + 1) - 1)%Z
      with (Z.of_nat (String.length name)) by lia.
    by rewrite Z.ltb_irrefl, andb_false_r.
Qed.

Lemma dot_files_are_others_witness :
  get_category ".jpg" = "Others".
Proof. apply (proj1 dot_files_are_others "jpg"). reflexivity. Defined.

(** ** Numbered names keep the extension *)

Lemma append_cons a s t : String a s +:+ t = String a (s +:+ t).
Proof. reflexivity. Qed.

Lemma slice_to_from i : ∀ s, Str.slice_to i s +:+ Str.slice_from i s = s.
Proof.
  induction i as [|i IH]; intros [|a s]; simpl; try done.
  by rewrite append_cons, IH.
Qed.

Lemma slice_from_app s t : Str.slice_from (String.length s) (s +:+ t) = t.
Proof. induction s as [|a s IH]; [done|]. by rewrite append_cons. Qed.

Lemma append_assoc s1 s2 s3 : (s1 +:+ s2) +:+ s3 = s1 +:+ s2 +:+ s3.
Proof.
  induction s1 as [|a s1 IH]; [done|]. by rewrite !append_cons, IH.
Qed.

Lemma append_nil_r s : s +:+ "" = s.
Proof. induction s as [|a s IH]; [done|]. by rewrite append_cons, IH. Qed.

(** Where the last occurrence of [c] splits a string. *)
Lemma rfind_split c s :
  (0 ≤ Str.rfind c s)%Z →
  ∃ pre t, s = pre +:+ String c t ∧
           Str.rfind c s = Str.len pre ∧
           Str.rfind c t = (-1)%Z ∧
           Str.slice_to (Z.to_nat (Str.rfind c s)) s = pre ∧
           Str.slice_from (Z.to_nat (Str.rfind c s)) s = String c t.
Proof.
  unfold Str.len. induction s as [|a s IH]; simpl; [lia|].
  destruct (0 <=? Str.rfind c s)%Z eqn:Hr.
  - intros _. destruct IH as (pre & t & Hs & Hlen & Ht & Hto & Hfrom); [lia|].
    exists (String a pre), t. simpl.
    replace (Z.to_nat (Str.rfind c s + 1))
      with (S (Z.to_nat (Str.rfind c s))) by lia.
    simpl. rewrite Hto, Hfrom. repeat split; try done.
    + by rewrite Hs at 1.
    + lia.
  - destruct (Ascii.eqb_spec a c) as [->|Hne]; [|lia].
    intros _. exists "", s. simpl. repeat split; try done.
    pose proof (rfind_range c s). lia.
Qed.

Lemma pathlib_stem_suffix name : Path.stem name +:+ Path.suffix name = name.
Proof.
  unfold Path.stem, Path.suffix.
  destruct (_ && _); [apply slice_to_from|apply append_nil_r].
Qed.

Lemma pretty_N_char_no_dot x : Ascii.eqb (pretty_N_char x) "." = false.
Proof. unfold pretty_N_char. by repeat case_match. Qed.

Lemma pretty_N_go_no_dot x : ∀ s,
  Str.rfind "." s = (-1)%Z → Str.rfind "." (pretty_N_go x s) = (-1)%Z.
Proof.
  induction (N.lt_wf_0 x) as [x _ IH]; intros s Hs.
  destruct (decide (x = 0)%N) as [->|Hx]; [by rewrite pretty_N_go_0|].
  rewrite pretty_N_go_step by lia. apply IH.
  - apply N.div_lt; lia.
  - simpl. by rewrite Hs, pretty_N_char_no_dot.
Qed.

Lemma pretty_nat_no_dot (n : nat) : Str.rfind "." (pretty n) = (-1)%Z.
Proof.
  unfold pretty, pretty_nat, pretty, pretty_N.
  case_decide; [done|]. by apply pretty_N_go_no_dot.
Qed.

Lemma underscore_name_is_others s :
  get_category_loop CATEGORIES (String "." (String "_" s)) = "Others".
Proof.
  unfold CATEGORIES, get_category_loop.
  repeat (rewrite bool_decide_false;
          [|intros Hin;
            repeat (apply elem_of_cons in Hin as [Hin|Hin]; [discriminate|]);
            by apply elem_of_nil in Hin]).
  done.
Qed.

(** The name the collision loop tries for counter [n] keeps the suffix of
    the original name, whenever there is one, and is always classified like
    the original; it is never the original name itself. *)
Theorem numbered_name_keeps_category name n :
  let renamed := numbered (Path.stem name) n (Path.suffix name) in
  (Path.suffix name ≠ "" → Path.suffix renamed = Path.suffix name) ∧
  get_category renamed = get_category name ∧
  renamed ≠ name.
Proof.
  cbv zeta.
  assert (Hne : numbered (Path.stem name) n (Path.suffix name) ≠ name).
  { intros Heq. apply (f_equal String.length) in Heq.
    rewrite <- (pathlib_stem_suffix name) in Heq at 3.
    unfold numbered in Heq. rewrite !append_length in Heq. simpl in Heq. lia. }
  assert (Hmain :
    (Path.suffix name ≠ "" →
     Path.suffix (numbered (Path.stem name) n (Path.suffix name))
     = Path.suffix name) ∧
    get_category (numbered (Path.stem name) n (Path.suffix name))
    = get_category name); [|by destruct Hmain].
  destruct ((0 <? Str.rfind "." name)
            && (Str.rfind "." name <? Str.len name - 1))%Z eqn:Hcond.
  - (* the name has a suffix *)
    pose proof Hcond as Hcond'.
    apply andb_true_iff in Hcond' as [Hpos Hlast].
    apply Z.ltb_lt in Hpos, Hlast.
    destruct (rfind_split "." name) as (pre & t & Hname & Hr & Ht & Hto & Hfrom);
      [lia|].
    assert (Hstem : Path.stem name = pre)
      by (unfold Path.stem; by rewrite Hcond).
    assert (Hsuffix : Path.suffix name = String "." t)
      by (unfold Path.suffix; by rewrite Hcond).
    rewrite Hstem, Hsuffix. unfold numbered.
    assert (Hsuf : Path.suffix (pre +:+ "_" +:+ pretty n +:+ String "." t)
                   = String "." t).
    { unfold Path.suffix.
      rewrite <- !append_assoc, (rfind_app_last "." _ t) by done.
      rewrite Hr in Hlast. rewrite Hname in Hlast. unfold Str.len in *.
      rewrite !append_length in *. simpl in *.
      rewrite Nat2Z.id.
      replace (String.length pre + 1 + String.length (pretty n))
        with (String.length ((pre +:+ "_") +:+ pretty n))
        by (rewrite !append_length; simpl; lia).
      rewrite slice_from_app.
      rewrite !append_length. simpl.
      match goal with |- (if ?c then _ else _) = _ =>
        destruct c eqn:Hc end; [done|].
      apply andb_false_iff in Hc as [Hc|Hc]; apply Z.ltb_ge in Hc; lia. }
    split; [done|]. unfold get_category. by rewrite Hsuf, Hsuffix.
  - (* the name has no suffix *)
    assert (Hstem : Path.stem name = name)
      by (unfold Path.stem; by rewrite Hcond).
    assert (Hsuffix : Path.suffix name = "")
      by (unfold Path.suffix; by rewrite Hcond).
    rewrite Hstem, Hsuffix. unfold numbered. split; [done|].
    rewrite append_nil_r. unfold get_category. rewrite Hsuffix.
    unfold Path.suffix.
    rewrite (rfind_app_none "." name ("_" +:+ pretty n))
      by (change ("_" +:+ pretty n) with (String "_" (pretty n)); simpl;
          by rewrite pretty_nat_no_dot).
    destruct ((0 <? Str.rfind "." name)
              && (Str.rfind "." name <?
                  Str.len (name +:+ "_" +:+ pretty n) - 1))%Z eqn:Hcond'; [|done].
    apply andb_true_iff in Hcond' as [Hpos _]. rewrite Hpos in Hcond.
    apply Z.ltb_lt in Hpos. simpl in Hcond. apply Z.ltb_ge in Hcond.
    destruct (rfind_split "." name) as (pre & t & Hname & Hr & Ht & Hto & Hfrom);
      [lia|].
    assert (t = "") as ->.
    { rewrite Hr in Hcond. rewrite Hname in Hcond.
      unfold Str.len in Hcond. rewrite append_length in Hcond.
      destruct t; [done|]. simpl in Hcond. lia. }
    rewrite Hr. unfold Str.len. rewrite Nat2Z.id.
    rewrite Hname at 1. rewrite append_assoc, (slice_from_app pre).
    change (Str.lower ("." +:+ "_" +:+ pretty n))
      with (String "." (String "_" (Str.lower (pretty n)))).
    rewrite underscore_name_is_others. reflexivity.
Qed.

Lemma numbered_name_keeps_category_witness :
  Path.suffix (numbered (Path.stem "report.txt") 2 (Path.suffix "report.txt"))
  = Path.suffix "report.txt".
Proof.
  apply (proj1 (numbered_name_keeps_category "report.txt" 2)). discriminate.
Defined.

(** * Further properties of commit runs *)

(** When the category name is taken by a regular file the iteration ends in
    the handler, whatever the fuel. *)
Lemma iteration_blocked fuel name s es data :
  dry_run s = false → disk s = Some (Dir es) → name ≠ script_name →
  Entries.find (get_category name) es = Some (File data) →
  ∃ s', iteration fuel name s = (Ok tt, s') ∧
        errors (stats s') = S (errors (stats s)).
Proof.
  intros Hdry Hdisk Hname Hcat.
  unfold iteration, try_except, process_file. case_decide; [done|].
  unfold bind at 1 2 3. unfold print at 1 2, get_dry_run.
  cbn [dry_run stats disk stdout calls]. rewrite Hdry. cbn [negb].
  unfold bind at 1. unfold mkdir, syscall, Fs.mkdir.
  cbn [dry_run stats disk stdout calls]. rewrite Hdisk, Hcat.
  run_tail. by eexists.
Qed.

(** A commit-mode iteration that counts no error found the category name
    free or naming a directory. *)
Lemma commit_step_full fuel name s es :
  dry_run s = false → disk s = Some (Dir es) → name ≠ script_name →
  widest es + 1 < fuel →
  ∃ s', iteration fuel name s = (Ok tt, s') ∧
        dry_run s' = false ∧
        skipped (stats s') = skipped (stats s) ∧
        committed name es s s' ∧
        (errors (stats s') = errors (stats s) →
         ∀ data, Entries.find (get_category name) es ≠ Some (File data)).
Proof.
  intros Hdry Hdisk Hname Hfuel.
  destruct (commit_step fuel name s es Hdry Hdisk Hname Hfuel)
    as (s' & Hrun & Hdry' & Hsk & Hcom).
  exists s'. repeat split; try done.
  intros Herr data Hcat.
  destruct (iteration_blocked fuel name s es data Hdry Hdisk Hname Hcat)
    as (s'' & Hrun' & Herr').
  rewrite Hrun in Hrun'. injection Hrun' as <-. lia.
Qed.

(** The invariant rule of the commit-mode loop, with the extra fact about
    error-free iterations. *)
Lemma commit_loop_full fuel (P : list string → state → Prop) :
  (∀ xs s, P (script_name :: xs) s → P xs s) →
  (∀ x xs s s' es,
      P (x :: xs) s → x ≠ script_name →
      disk s = Some (Dir es) →
      committed x es s s' →
      (errors (stats s') = errors (stats s) →
       ∀ data, Entries.find (get_category x) es ≠ Some (File data)) →
      P xs s') →
  ∀ xs s es,
    dry_run s = false → disk s = Some (Dir es) →
    widest es + length xs + 1 < fuel → P xs s →
    ∃ s' es', for_each xs (iteration fuel) s = (Ok tt, s') ∧
              dry_run s' = false ∧ disk s' = Some (Dir es') ∧ P [] s'.
Proof.
  intros Hskip Hstep.
  induction xs as [|x xs IH]; intros s es Hdry Hdisk Hfuel HP; simpl.
  - by exists s, es.
  - simpl in Hfuel. unfold bind.
    destruct (decide (x = script_name)) as [->|Hne].
    + unfold iteration, try_except. rewrite process_file_script.
      apply (IH s es); [done|done|lia|by apply Hskip].
    + destruct (commit_step_full fuel x s es)
        as (s1 & Hrun & Hdry1 & Hsk1 & Hcom & Hfree); [done|done|done|lia|].
      rewrite Hrun.
      destruct (committed_disk x es s s1 Hdisk Hcom) as (es1 & Hdisk1 & Hw).
      apply (IH s1 es1); [done|done|lia|by eapply Hstep].
Qed.

(** A commit run of a fresh organizer, with an invariant of its loop. *)
Lemma organize_commit_full fuel es (P : list string → state → Prop) :
  widest es + length (scanned es) + 1 < fuel →
  (∀ xs s, P (script_name :: xs) s → P xs s) →
  (∀ x xs s s' es0,
      P (x :: xs) s → x ≠ script_name →
      disk s = Some (Dir es0) →
      committed x es0 s s' →
      (errors (stats s') = errors (stats s) →
       ∀ data, Entries.find (get_category x) es0 ≠ Some (File data)) →
      P xs s') →
  (∀ s0, disk s0 = Some (Dir es) →
         stats s0 = {| moved := 0; skipped := 0; errors := 0 |} →
         P (scanned es) s0) →
  ∃ s' sl es',
    organize fuel (init false (Some (Dir es))) = (Ok tt, s') ∧
    P [] sl ∧ stats s' = stats sl ∧
    disk s' = Some (Dir es') ∧ disk sl = Some (Dir es').
Proof.
  intros Hfuel Hskip Hstep Hinit.
  rewrite (organize_dir fuel _ es) by done.
  destruct (scanned es) as [|f files] eqn:Hscan.
  - unfold print. cbn [dry_run stats disk stdout calls].
    eexists _, (init false (Some (Dir es))), es. split; [done|]. cbn.
    repeat split; try done. by apply Hinit.
  - unfold bind. unfold print at 1. cbn [dry_run stats disk stdout calls].
    match goal with |- context [for_each _ _ ?st] => set (s0 := st) end.
    destruct (commit_loop_full fuel P Hskip Hstep (f :: files) s0 es)
      as (sl & es' & Hrun & Hdryl & Hdiskl & HP); [done|done|done| |].
    { by apply Hinit. }
    rewrite Hrun, print_summary_run.
    eexists _, sl, es'. split; [done|]. cbn. by repeat split.
Qed.

Lemma moved_disk_find name category destination x es m :
  Entries.find m
    (Entries.set category
       (Dir (children category es ++ [(destination, x)]))
       (Entries.remove name (with_category category es))) =
  if decide (m = category)
  then Some (Dir (children category es ++ [(destination, x)]))
  else if decide (m = name) then None
  else Entries.find m es.
Proof.
  rewrite find_set. case_decide; [done|].
  rewrite find_remove. case_decide; [done|].
  rewrite find_with_category.
  destruct (Entries.find m es); [done|]. by case_decide.
Qed.

Lemma scanned_NoDup es : NoDup (Entries.names es) → NoDup (scanned es).
Proof. apply NoDup_filter. Qed.

(** What a commit run over a directory without duplicate names keeps: the
    entries below the source directory, the sub-directories themselves, and
    the contents of every regular file, which is afterwards still in the
    source directory or in the directory of its category. *)
Lemma commit_run_safe fuel es :
  NoDup (Entries.names es) →
  widest es + length (scanned es) + 1 < fuel →
  ∃ s' es',
    organize fuel (init false (Some (Dir es))) = (Ok tt, s') ∧
    disk s' = Some (Dir es') ∧
    (∀ c n v, find2 c n es = Some v → find2 c n es' = Some v) ∧
    (∀ n ch, Entries.find n es = Some (Dir ch) →
             ∃ ch', Entries.find n es' = Some (Dir ch')) ∧
    (∀ name data,
        Entries.find name es = Some (File data) →
        Entries.find name es' = Some (File data) ∨
        ∃ d, find2 (get_category name) d es' = Some (File data)).
Proof.
  intros Hnodup Hfuel.
  pose (P := λ (xs : list string) (st : state),
    ∃ es1, disk st = Some (Dir es1) ∧
      NoDup xs ∧
      (∀ y, y ∈ xs → is_regular es1 y = true) ∧
      (∀ c n v, find2 c n es = Some v → find2 c n es1 = Some v) ∧
      (∀ n ch, Entries.find n es = Some (Dir ch) →
               ∃ ch', Entries.find n es1 = Some (Dir ch')) ∧
      (∀ name data,
          Entries.find name es = Some (File data) →
          Entries.find name es1 = Some (File data) ∨
          ∃ d, find2 (get_category name) d es1 = Some (File data))).
  destruct (organize_commit_full fuel es P Hfuel)
    as (s' & sl & es' & Hrun & HP & _ & Hdisk & Hdiskl).
  - (* the script is skipped *)
    intros xs st (es1 & Hd & Hnd & Hreg & Hkeep & Hdirs & Hdata).
    exists es1. repeat split; try done.
    + by apply NoDup_cons in Hnd as [_ ?].
    + intros y Hy. apply Hreg. by right.
  - (* one iteration *)
    intros x xs st st' es0 (es1 & Hd & Hnd & Hreg & Hkeep & Hdirs & Hdata)
      Hx Hd0 Hcom Hfree.
    assert (es1 = es0) as -> by congruence.
    apply NoDup_cons in Hnd as [Hxs Hnd].
    assert (Hregx : is_regular es0 x = true) by (apply Hreg; by left).
    assert (Hreg' : ∀ y, y ∈ xs → is_regular es0 y = true)
      by (intros y Hy; apply Hreg; by right).
    destruct Hcom as [data Hcat Hd' Hm He|Hsrc Hd' Hm He
                     |v d Hsrc Hne [Hfresh _] Hd' Hm He _].
    + exists es0. repeat split; try done. congruence.
    + eexists. split; [done|]. repeat split; try done.
      * intros y Hy. rewrite is_regular_with_category. by apply Hreg'.
      * intros c n v Hv. unfold find2. rewrite children_with_category.
        by apply Hkeep.
      * intros n ch Hn. destruct (Hdirs n ch Hn) as [ch' Hch'].
        exists ch'. by rewrite find_with_category, Hch'.
      * intros name data Hname.
        destruct (Hdata name data Hname) as [Hroot|[d Hsub]].
        -- left. by rewrite find_with_category, Hroot.
        -- right. exists d. unfold find2. by rewrite children_with_category.
    + specialize (Hfree He).
      assert (Hfile : ∃ dx, v = File dx).
      { unfold is_regular in Hregx. rewrite Hsrc in Hregx.
        destruct v; [by eexists|done]. }
      destruct Hfile as [dx ->].
      assert (Hnotcat : ∀ y, is_regular es0 y = true → y ≠ get_category x).
      { intros y Hy ->. unfold is_regular in Hy.
        destruct (Entries.find (get_category x) es0) as [[dy|?]|] eqn:Hc;
          try done. by destruct (Hfree dy). }
      destruct (moved_disk x (get_category x) d (File dx) es0 _ eq_refl
                  Hne Hfresh) as (_ & Hthere & Hform & Hstay).
      assert (Hstay' : ∀ c n w, find2 c n es0 = Some w →
        find2 c n (Entries.set (get_category x)
                     (Dir (children (get_category x) es0 ++ [(d, File dx)]))
                     (Entries.remove x (with_category (get_category x) es0)))
        = Some w).
      { intros c n w Hw. apply Hstay; [|done]. intros ->.
        unfold find2, children in Hw. by rewrite Hsrc in Hw. }
      eexists. split; [done|]. repeat split; try done.
      * intros y Hy. rewrite Hform.
        specialize (Hreg' y Hy). pose proof (Hnotcat y Hreg').
        case_decide; [done|]. case_decide; [|done]. by subst.
      * intros c n w Hw. by apply Hstay', Hkeep.
      * intros n ch Hn. destruct (Hdirs n ch Hn) as [ch' Hch'].
        rewrite moved_disk_find. case_decide; [by eexists|].
        case_decide; [|by eexists]. subst. congruence.
      * intros name data Hname.
        destruct (Hdata name data Hname) as [Hroot|[d' Hsub]].
        -- destruct (decide (name = x)) as [->|Hnx].
           ++ right. exists d. assert (dx = data) as -> by congruence. done.
           ++ left. rewrite moved_disk_find.
              assert (name ≠ get_category x).
              { apply Hnotcat. unfold is_regular. by rewrite Hroot. }
              by repeat case_decide.
        -- right. exists d'. by apply Hstay'.
  - (* after the scan *)
    intros s0 Hd _. exists es. repeat split; try done.
    + by apply scanned_NoDup.
    + intros y. apply is_regular_scanned.
    + intros n ch Hn. by eexists.
    + intros name data Hname. by left.
  - destruct HP as (es1 & Hd & _ & _ & Hkeep & Hdirs & Hdata).
    assert (es1 = es') as -> by congruence.
    by exists s', es'.
Qed.

(** A commit run overwrites and removes nothing below the source directory:
    over a directory without duplicate names, every entry that was in a
    sub-directory before the run is there afterwards, unchanged, and every
    sub-directory is still a directory. *)
Theorem commit_run_keeps_existing_entries fuel es :
  NoDup (Entries.names es) →
  widest es + length (scanned es) + 1 < fuel →
  ∃ s' es',
    organize fuel (init false (Some (Dir es))) = (Ok tt, s') ∧
    disk s' = Some (Dir es') ∧
    (∀ c n v, find2 c n es = Some v → find2 c n es' = Some v) ∧
    (∀ n ch, Entries.find n es = Some (Dir ch) →
             ∃ ch', Entries.find n es' = Some (Dir ch')).
Proof.
  intros Hnodup Hfuel.
  destruct (commit_run_safe fuel es Hnodup Hfuel)
    as (s' & es' & Hrun & Hdisk & Hkeep & Hdirs & _).
  by exists s', es'.
Qed.

Lemma commit_run_keeps_existing_entries_witness :
  ∃ s' es',
    organize 10 (init false (Some (Dir sample_reports))) = (Ok tt, s') ∧
    disk s' = Some (Dir es') ∧
    (∀ c n v, find2 c n sample_reports = Some v → find2 c n es' = Some v) ∧
    (∀ n ch, Entries.find n sample_reports = Some (Dir ch) →
             ∃ ch', Entries.find n es' = Some (Dir ch')).
Proof.
  apply (commit_run_keeps_existing_entries 10 sample_reports).
  - apply (bool_decide_unpack _). by vm_compute.
  - vm_compute. lia.
Defined.

(** A commit run loses no file: over a directory without duplicate names,
    every regular file of the source directory is afterwards, with its
    contents, either still there or in the directory of its category; when
    the run counted no error, every file but the script is in the directory
    of its category. *)
Theorem commit_run_loses_no_file fuel es :
  NoDup (Entries.names es) →
  widest es + length (scanned es) + 1 < fuel →
  ∃ s' es',
    organize fuel (init false (Some (Dir es))) = (Ok tt, s') ∧
    disk s' = Some (Dir es') ∧
    ∀ name data,
      Entries.find name es = Some (File data) →
      (Entries.find name es' = Some (File data) ∨
       ∃ d, find2 (get_category name) d es' = Some (File data)) ∧
      (errors (stats s') = 0 → name ≠ script_name →
       ∃ d, find2 (get_category name) d es' = Some (File data)).
Proof.
  intros Hnodup Hfuel.
  destruct (commit_run_safe fuel es Hnodup Hfuel)
    as (s' & es' & Hrun & Hdisk & _ & _ & Hdata).
  destruct (commit_run fuel es Hfuel)
    as (s2 & es2 & Hrun2 & _ & Hdisk2 & _ & _ & Hclean & _).
  rewrite Hrun in Hrun2. injection Hrun2 as <-.
  assert (es2 = es') as -> by congruence.
  exists s', es'. split; [done|]. split; [done|].
  intros name data Hname. split; [by apply Hdata|].
  intros Hzero Hne.
  destruct (Hdata name data Hname) as [Hroot|?]; [|done].
  destruct Hne. apply (Hclean Hzero). unfold is_regular. by rewrite Hroot.
Qed.

Lemma commit_run_loses_no_file_witness :
  ∃ s' es',
    organize 10 (init false (Some (Dir sample_mixed))) = (Ok tt, s') ∧
    disk s' = Some (Dir es') ∧
    ∀ name data,
      Entries.find name sample_mixed = Some (File data) →
      (Entries.find name es' = Some (File data) ∨
       ∃ d, find2 (get_category name) d es' = Some (File data)) ∧
      (errors (stats s') = 0 → name ≠ script_name →
       ∃ d, find2 (get_category name) d es' = Some (File data)).
Proof.
  apply (commit_run_loses_no_file 10 sample_mixed).
  - apply (bool_decide_unpack _). by vm_compute.
  - vm_compute. lia.
Defined.

(** What a commit run over a directory without duplicate names accounts
    for: the files that left the source directory are as many as [moved]
    says, a failed iteration changes nothing, and a directory is only
    created to receive a file. *)
Lemma commit_run_accounts fuel es :
  NoDup (Entries.names es) →
  widest es + length (scanned es) + 1 < fuel →
  ∃ s' es' gone,
    organize fuel (init false (Some (Dir es))) = (Ok tt, s') ∧
    disk s' = Some (Dir es') ∧
    NoDup gone ∧ length gone = moved (stats s') ∧
    (∀ m, is_regular es' m = true ↔ is_regular es m = true ∧ m ∉ gone) ∧
    (∀ m ch, Entries.find m es' = Some (Dir ch) →
             Entries.find m es = None → ch ≠ []) ∧
    (moved (stats s') = 0 → es' = es).
Proof.
  intros Hnodup Hfuel.
  pose (P := λ (xs : list string) (st : state),
    ∃ es1 gone, disk st = Some (Dir es1) ∧
      NoDup xs ∧
      (∀ y, y ∈ xs → is_regular es1 y = true) ∧
      NoDup gone ∧ length gone = moved (stats st) ∧
      (∀ m, is_regular es1 m = true ↔ is_regular es m = true ∧ m ∉ gone) ∧
      (∀ m ch, Entries.find m es1 = Some (Dir ch) →
               Entries.find m es = None → ch ≠ []) ∧
      (moved (stats st) = 0 → es1 = es)).
  destruct (organize_commit_full fuel es P Hfuel)
    as (s' & sl & es' & Hrun & HP & Hstats & Hdisk & Hdiskl).
  - (* the script is skipped *)
    intros xs st (es1 & gone & Hd & Hnd & Hreg & Hrest).
    exists es1, gone. split; [done|]. split; [|split; [|done]].
    + by apply NoDup_cons in Hnd as [_ ?].
    + intros y Hy. apply Hreg. by right.
  - (* one iteration *)
    intros x xs st st' es0
      (es1 & gone & Hd & Hnd & Hreg & Hgone & Hlen & Hiff & Hnew & Hsame)
      Hx Hd0 Hcom Hfree.
    assert (es1 = es0) as -> by congruence.
    apply NoDup_cons in Hnd as [Hxs Hnd].
    assert (Hregx : is_regular es0 x = true) by (apply Hreg; by left).
    assert (Hreg' : ∀ y, y ∈ xs → is_regular es0 y = true)
      by (intros y Hy; apply Hreg; by right).
    assert (Hfile : ∃ dx, Entries.find x es0 = Some (File dx)).
    { unfold is_regular in Hregx.
      destruct (Entries.find x es0) as [[dx|?]|]; try done. by eexists. }
    destruct Hfile as [dx Hdx].
    destruct Hcom as [data Hcat Hd' Hm He|Hsrc Hd' Hm He
                     |v d Hsrc Hne [Hfresh _] Hd' Hm He _].
    + exists es0, gone. rewrite Hm. repeat split; try done;
        try congruence; by apply Hiff.
    + assert (Hwith : with_category (get_category x) es0 = es0).
      { destruct Hsrc as [Hnone|Hself]; [congruence|].
        unfold with_category. by rewrite <- Hself, Hdx. }
      rewrite Hwith in Hd'.
      exists es0, gone. rewrite Hm. repeat split; try done; by apply Hiff.
    + specialize (Hfree He).
      assert (v = File dx) as -> by congruence.
      assert (Hnotcat : ∀ y, is_regular es0 y = true → y ≠ get_category x).
      { intros y Hy ->. unfold is_regular in Hy.
        destruct (Entries.find (get_category x) es0) as [[dy|?]|] eqn:Hc;
          try done. by destruct (Hfree dy). }
      destruct (moved_disk x (get_category x) d (File dx) es0 _ eq_refl
                  Hne Hfresh) as (_ & _ & Hform & _).
      eexists _, (x :: gone). split; [done|]. split; [done|].
      split; [|split; [|split; [|split; [|split]]]].
      * intros y Hy. rewrite Hform.
        specialize (Hreg' y Hy). pose proof (Hnotcat y Hreg').
        case_decide; [done|]. case_decide; [|done]. by subst.
      * apply NoDup_cons. split; [|done]. by apply (Hiff x).
      * cbn. by rewrite Hlen, Hm.
      * intros m. rewrite Hform, not_elem_of_cons.
        case_decide as Hc.
        -- split; [done|]. intros (Hm1 & Hm2 & Hm3).
           destruct (Hnotcat m); [|done]. apply Hiff. by split.
        -- case_decide; [by split; [|intros (_ & ? & _)]|].
           rewrite Hiff. split; [by intros [? ?]|]. by intros (? & _ & ?).
      * intros m ch. rewrite moved_disk_find.
        case_decide; [intros [= <-] _; by destruct (children _ _)|].
        case_decide; [done|]. apply Hnew.
      * lia.
  - (* after the scan *)
    intros s0 Hd Hst. exists es, []. rewrite Hst. cbn.
    split; [done|]. split; [by apply scanned_NoDup|].
    split; [intros y; apply is_regular_scanned|].
    split; [apply NoDup_nil_2|]. split; [done|].
    split; [|split; [|done]].
    + intros m. split; [|by intros [? _]].
      intros ?. split; [done|]. apply not_elem_of_nil.
    + intros m ch Hm Hnone. congruence.
  - destruct HP as (es1 & gone & Hd & _ & _ & Hgone & Hlen & Hiff & Hnew & Hsame).
    assert (es1 = es') as -> by congruence.
    exists s', es', gone. rewrite Hstats.
    do 6 (split; [done|]). done.
Qed.



(** A failed iteration leaves nothing behind: over a directory without
    duplicate names, every directory a commit run adds to the source
    directory holds at least one file, and a run that moved nothing leaves
    the source directory exactly as it was. *)
Theorem commit_run_leaves_no_empty_directory fuel es :
  NoDup (Entries.names es) →
  widest es + length (scanned es) + 1 < fuel →
  ∃ s' es',
    organize fuel (init false (Some (Dir es))) = (Ok tt, s') ∧
    disk s' = Some (Dir es') ∧
    (∀ m ch, Entries.find m es = None →
             Entries.find m es' = Some (Dir ch) → ch ≠ []) ∧
    (moved (stats s') = 0 → es' = es).
Proof.
  intros Hnodup Hfuel.
  destruct (commit_run_accounts fuel es Hnodup Hfuel)
    as (s' & es' & gone & Hrun & Hdisk & _ & _ & _ & Hnew & Hsame).
  exists s', es'. split; [done|]. split; [done|]. split; [|done].
  intros m ch Hnone Hdir. by eapply Hnew.
Qed.

Lemma commit_run_leaves_no_empty_directory_witness :
  ∃ s' es',
    organize 5 (init false (Some (Dir sample_others))) = (Ok tt, s') ∧
    disk s' = Some (Dir es') ∧
    (∀ m ch, Entries.find m sample_others = None →
             Entries.find m es' = Some (Dir ch) → ch ≠ []) ∧
    (moved (stats s') = 0 → es' = sample_others).
Proof.
  apply (commit_run_leaves_no_empty_directory 5 sample_others).
  - apply (bool_decide_unpack _). by vm_compute.
  - vm_compute. lia.
Defined.

(** The script's own name is never moved: an entry of the source directory
    called [file_organizer.py] is there after a run in either mode, exactly
    as it was. *)
Theorem script_file_is_never_moved dry fuel es v :
  Entries.find script_name es = Some v →
  widest es + length (scanned es) + 1 < fuel →
  ∃ s' es',
    organize fuel (init dry (Some (Dir es))) = (Ok tt, s') ∧
    disk s' = Some (Dir es') ∧
    Entries.find script_name es' = Some v.
Proof.
  intros Hscript Hfuel. destruct dry.
  - destruct (organize_dry fuel es (init true (Some (Dir es))))
      as (s' & Hrun & _ & Hdisk & _); [done..|].
    by exists s', es.
  - pose (P := λ (xs : list string) (st : state),
      ∃ es1, disk st = Some (Dir es1) ∧
             Entries.find script_name es1 = Some v).
    destruct (organize_commit fuel es (init false (Some (Dir es))) P)
      as (s' & sl & es' & Hrun & HP & _ & _ & Hdisk & Hdiskl & _);
      [done|done|done| | | |].
    + by intros xs st H.
    + intros x xs st st' es0 (es1 & Hd & Hv) Hx _ Hd0 _ _ Hcom.
      assert (es1 = es0) as -> by congruence.
      destruct Hcom as [data Hcat Hd' _ _|Hsrc Hd' _ _
                       |w d Hsrc Hne _ Hd' _ _ _].
      * exists es0. split; [congruence|done].
      * eexists. split; [done|]. by rewrite find_with_category, Hv.
      * eexists. split; [done|]. rewrite moved_disk_find.
        pose proof (get_category_not_script x).
        by repeat case_decide.
    + intros s0 _ Hd. by exists es.
    + destruct HP as (es1 & Hd & Hv).
      assert (es1 = es') as -> by congruence. by exists s', es'.
Qed.

Lemma script_file_is_never_moved_witness :
  ∃ s' es',
    organize 10
      (init false (Some (Dir [("file_organizer.py", File "code");
                              ("notes.txt", File "n")]))) = (Ok tt, s') ∧
    disk s' = Some (Dir es') ∧
    Entries.find script_name es' = Some (File "code").
Proof.
  apply (script_file_is_never_moved false 10
           [("file_organizer.py", File "code"); ("notes.txt", File "n")]).
  - reflexivity.
  - vm_compute. lia.
Defined.

(** A commit run adds nothing to the source directory but directories
    called after one of the eight categories: every entry found there after
    the run either is the entry that was there before, or is a directory
    with a category's name. *)
Theorem commit_run_adds_only_category_directories fuel es :
  widest es + length (scanned es) + 1 < fuel →
  ∃ s' es',
    organize fuel (init false (Some (Dir es))) = (Ok tt, s') ∧
    disk s' = Some (Dir es') ∧
    ∀ m v, Entries.find m es' = Some v →
           Entries.find m es = Some v ∨
           (∃ ch, v = Dir ch) ∧ m ∈ category_names.
Proof.
  intros Hfuel.
  pose (P := λ (xs : list string) (st : state),
    ∃ es1, disk st = Some (Dir es1) ∧
      ∀ m v, Entries.find m es1 = Some v →
             Entries.find m es = Some v ∨
             (∃ ch, v = Dir ch) ∧ m ∈ category_names).
  destruct (organize_commit fuel es (init false (Some (Dir es))) P)
    as (s' & sl & es' & Hrun & HP & _ & _ & Hdisk & Hdiskl & _);
    [done|done|done| | | |].
  - by intros xs st H.
  - intros x xs st st' es0 (es1 & Hd & Hold) Hx _ Hd0 _ _ Hcom.
    assert (es1 = es0) as -> by congruence.
    assert (Hlabel : get_category x ∈ category_names)
      by apply get_category_range.
    destruct Hcom as [data Hcat Hd' _ _|Hsrc Hd' _ _
                     |w d Hsrc Hne _ Hd' _ _ _].
    + exists es0. split; [congruence|done].
    + eexists. split; [done|]. intros m v. rewrite find_with_category.
      destruct (Entries.find m es0) eqn:Hm; [intros ?; apply Hold; congruence|].
      case_decide; [|done]. intros [= <-]. subst m. right. split; [by eexists|done].
    + eexists. split; [done|]. intros m v. rewrite moved_disk_find.
      case_decide; [intros [= <-]; subst m; right; split; [by eexists|done]|].
      case_decide; [done|]. apply Hold.
  - intros s0 _ Hd. exists es. split; [done|]. intros m v Hm. by left.
  - destruct HP as (es1 & Hd & Hold).
    assert (es1 = es') as -> by congruence. by exists s', es'.
Qed.

Lemma commit_run_adds_only_category_directories_witness :
  ∃ s' es',
    organize 10 (init false (Some (Dir sample_mixed))) = (Ok tt, s') ∧
    disk s' = Some (Dir es') ∧
    ∀ m v, Entries.find m es' = Some v →
           Entries.find m sample_mixed = Some v ∨
           (∃ ch, v = Dir ch) ∧ m ∈ category_names.
Proof.
  apply (commit_run_adds_only_category_directories 10 sample_mixed).
  vm_compute. lia.
Defined.

(** [organize] never resets the counters: on an organizer that has already
    run, in either mode, a further run over an existing directory adds to
    [moved] and [errors], one count for every scanned file other than the
    script, and lowers neither. *)
Theorem counters_accumulate fuel s es :
  disk s = Some (Dir es) →
  widest es + length (scanned es) + 1 < fuel →
  ∃ s', organize fuel s = (Ok tt, s') ∧
        moved (stats s) ≤ moved (stats s') ∧
        errors (stats s) ≤ errors (stats s') ∧
        moved (stats s') + errors (stats s')
          = moved (stats s) + errors (stats s) + handled (scanned es).
Proof.
  intros Hdisk Hfuel. destruct (dry_run s) eqn:Hdry.
  - destruct (organize_dry fuel es s Hdry Hdisk)
      as (s' & Hrun & _ & _ & _ & _ & Herr & Hmov & _).
    exists s'. split; [done|]. lia.
  - pose (P := λ (xs : list string) (st : state),
      moved (stats s) ≤ moved (stats st) ∧
      errors (stats s) ≤ errors (stats st) ∧
      moved (stats st) + errors (stats st) + handled xs
        = moved (stats s) + errors (stats s) + handled (scanned es)).
    destruct (organize_commit fuel es s P)
      as (s' & sl & es' & Hrun & HP & _ & Hstats & _);
      [done|done|done| | | |].
    + intros xs st (? & ? & Hcount). rewrite handled_cons in Hcount.
      case_decide; [|done]. by repeat split.
    + intros x xs st st' es0 (? & ? & Hcount) Hx _ _ _ _ Hcom.
      rewrite handled_cons in Hcount. case_decide; [done|].
      destruct Hcom as [data _ _ Hm He|_ _ Hm He|w d _ _ _ _ Hm He _];
        repeat split; lia.
    + intros s0 Hst _. unfold P. rewrite Hst. by repeat split.
    + destruct HP as (? & ? & Hcount). unfold handled in Hcount at 1.
      simpl in Hcount. exists s'. rewrite Hstats. split; [done|]. lia.
Qed.

Lemma counters_accumulate_witness :
  ∃ s', organize 10 (organize 10 (init true (Some (Dir sample_mixed)))).2
          = (Ok tt, s') ∧
        moved (stats (organize 10 (init true (Some (Dir sample_mixed)))).2)
          ≤ moved (stats s') ∧
        errors (stats (organize 10 (init true (Some (Dir sample_mixed)))).2)
          ≤ errors (stats s') ∧
        moved (stats s') + errors (stats s')
          = moved (stats (organize 10 (init true (Some (Dir sample_mixed)))).2)
            + errors (stats (organize 10 (init true (Some (Dir sample_mixed)))).2)
            + handled (scanned sample_mixed).
Proof.
  apply (counters_accumulate 10
           (organize 10 (init true (Some (Dir sample_mixed)))).2 sample_mixed).
  - reflexivity.
  - vm_compute. lia.
Defined.

(** ** What a preview run prints *)




(** * The command-line driver *)

Lemma preview_result fuel d :
  ∃ r s', organize fuel (init true d) = (r, s') ∧
          disk s' = d ∧ Forall scan_call (calls s') ∧
          (r = Ok tt ∨ ∃ e, r = Raise e ∧ DirectoryNotFound e
                             ∧ (∀ es, d ≠ Some (Dir es))
                             ∧ calls s' = [Iterdir]
                             ∧ stdout s' = header_lines true).
Proof.
  destruct d as [[data|es]|].
  - rewrite organize_not_dir by done. eexists _, _. split; [done|]. cbn.
    split; [done|]. split; [by repeat constructor|]. right.
    eexists. split; [done|]. split; [by right|done].
  - destruct (organize_dry fuel es (init true (Some (Dir es))))
      as (s' & Hrun & _ & Hdisk & Hcalls & _); [done..|].
    exists (Ok tt), s'. split; [done|]. split; [done|]. split; [|by left].
    rewrite Hcalls. cbn. constructor; [done|].
    apply Forall_fmap, Forall_true. by intros x.
  - rewrite organize_not_dir by done. eexists _, _. split; [done|]. cbn.
    split; [done|]. split; [by repeat constructor|]. right.
    eexists. split; [done|]. split; [by left|done].
Qed.

Lemma run_organizer_preview fuel source ss :
  ∃ r ss', run_organizer fuel true source ss = (r, ss') ∧
           stdin ss' = stdin ss ∧
           (∀ p, world ss' p = world ss p) ∧
           (∃ l, log ss' = log ss ++ l ∧ Forall scan_call l) ∧
           (r = Ok tt ∨
            ∃ e, r = Raise e ∧ DirectoryNotFound e ∧
                 (∀ es, world ss source ≠ Some (Dir es)) ∧
                 log ss' = log ss ++ [Iterdir] ∧
                 console ss' = console ss ++ (Organizer <$> header_lines true)).
Proof.
  unfold run_organizer.
  destruct (preview_result fuel (world ss source))
    as (r & s' & Hrun & Hdisk & Hcalls & Hres).
  rewrite Hrun. eexists _, _. split; [done|]. cbn.
  split; [done|]. split; [|split; [by eexists|]].
  - intros p. case_decide; [by subst|done].
  - destruct Hres as [->|(e & -> & He & Hnot & Hc & Hout)]; [by left|].
    right. exists e. by rewrite Hc, Hout.
Qed.

(** [main] changes the disk only after the answer [yes] or [y] to its
    second question: whenever the second line typed is anything else, or
    the input ends before it, no folder is changed and the only calls made
    are the listing and the is-file tests of the preview. *)
Theorem main_changes_nothing_unless_confirmed fuel ss :
  (∀ folder answer rest,
      stdin ss = folder :: answer :: rest →
      Str.lower (Text.strip answer) ∉ ["yes"; "y"]) →
  (∀ p, world (main fuel ss).2 p = world ss p) ∧
  ∃ l, log (main fuel ss).2 = log ss ++ l ∧ Forall scan_call l.
Proof.
  intros Hanswer. unfold main, input. cbn [stdin say console world log].
  destruct (stdin ss) as [|folder lines] eqn:Hin.
  { cbn. split; [done|]. exists []. by rewrite app_nil_r. }
  set (source := if decide (Text.strip folder = "") then "."
                 else Text.strip folder).
  match goal with |- context [run_organizer fuel true source ?st] =>
    set (ss1 := st) end.
  destruct (run_organizer_preview fuel source ss1)
    as (r & ss2 & Hrun & Hstdin & Hworld & Hlog & _).
  rewrite Hrun.
  assert (Hsame : (∀ p, world ss2 p = world ss p) ∧
                  ∃ l, log ss2 = log ss ++ l ∧ Forall scan_call l) by done.
  destruct r as [[]|e|]; [|done..].
  cbn [stdin say console world log]. rewrite Hstdin.
  change (stdin ss1) with lines.
  destruct lines as [|answer rest]; [done|].
  cbv beta iota. rewrite bool_decide_false by by eapply Hanswer.
  done.
Qed.

Lemma main_changes_nothing_unless_confirmed_witness :
  (∀ p, world (main 10 (fresh_session ["."; "no"]
                          (λ _, Some (Dir sample_mixed)))).2 p
        = Some (Dir sample_mixed)) ∧
  ∃ l, log (main 10 (fresh_session ["."; "no"]
                       (λ _, Some (Dir sample_mixed)))).2 = [] ++ l ∧
       Forall scan_call l.
Proof.
  apply (main_changes_nothing_unless_confirmed 10
           (fresh_session ["."; "no"] (λ _, Some (Dir sample_mixed)))).
  intros folder answer rest [= _ <- _]. vm_compute.
  intros Hin. repeat (apply elem_of_cons in Hin as [Hin|Hin]; [discriminate|]).
  by apply elem_of_nil in Hin.
Defined.

(** After the answer [yes] or [y], over an existing folder, [main] returns
    having run the commit phase with a new organizer on the folder exactly
    as the preview found it: the folder ends as a commit run of a fresh
    organizer leaves it, no other folder changes, and the terminal shows
    the preview's lines, the two prompts and the commit run's own lines,
    whose summary therefore counts the commit phase alone. *)
Theorem main_confirmed_commits_what_was_previewed
    fuel folder answer rest w es :
  Str.lower (Text.strip answer) ∈ ["yes"; "y"] →
  w (chosen_source folder) = Some (Dir es) →
  widest es + length (scanned es) + 1 < fuel →
  let source := chosen_source folder in
  let preview := (organize fuel (init true (Some (Dir es)))).2 in
  let commit := (organize fuel (init false (Some (Dir es)))).2 in
  let ended := main fuel (fresh_session (folder :: answer :: rest) w) in
  ended.1 = Finished ∧
  stdin ended.2 = rest ∧
  world ended.2 source = disk commit ∧
  (∀ p, p ≠ source → world ended.2 p = w p) ∧
  console ended.2 =
    [Welcome; AskFolder; WillOrganize source; RunningPreview]
    ++ (Organizer <$> stdout preview)
    ++ [AskProceed; OrganizingFiles]
    ++ (Organizer <$> stdout commit)
    ++ [AllDone] ∧
  log ended.2 = calls preview ++ calls commit.
Proof.
  intros Hyes Hdir Hfuel. cbv zeta.
  destruct (organize_dry fuel es (init true (Some (Dir es))))
    as (sp & Hp & _ & Hdiskp & _); [done..|].
  destruct (commit_run fuel es Hfuel) as (sc & es' & Hc & _).
  rewrite Hp, Hc. cbn [snd].
  set (source := chosen_source folder) in *.
  unfold main, input, fresh_session. cbn [stdin say console world log].
  change (if decide (Text.strip folder = "") then "." else Text.strip folder)
    with source.
  match goal with |- context [run_organizer fuel true source ?st] =>
    set (ss1 := st) end.
  assert (Hrun1 : run_organizer fuel true source ss1 =
    (Ok tt,
     {| stdin := answer :: rest;
        console := console ss1 ++ (Organizer <$> stdout sp);
        world := λ p, if decide (p = source) then disk sp else w p;
        log := calls sp |})).
  { unfold run_organizer. cbn [ss1 stdin say console world log].
    by rewrite Hdir, Hp. }
  rewrite Hrun1. cbn [stdin say console world log].
  rewrite bool_decide_true by done.
  match goal with |- context [run_organizer fuel false source ?st] =>
    set (ss3 := st) end.
  assert (Hrun2 : run_organizer fuel false source ss3 =
    (Ok tt,
     {| stdin := rest;
        console := console ss3 ++ (Organizer <$> stdout sc);
        world := λ p, if decide (p = source) then disk sc
                      else world ss3 p;
        log := calls sp ++ calls sc |})).
  { unfold run_organizer. cbn [ss3 stdin say console world log].
    rewrite decide_True by done. rewrite Hdiskp. cbn [disk init].
    by rewrite Hc. }
  rewrite Hrun2. cbn [fst snd stdin say console world log ss1 ss3].
  rewrite decide_True by done.
  repeat split; try done.
  - intros p Hne. by rewrite !decide_False.
  - by rewrite <- !app_assoc.
Qed.

Lemma main_confirmed_commits_what_was_previewed_witness :
  let source := chosen_source "  " in
  let preview := (organize 10 (init true (Some (Dir sample_reports)))).2 in
  let commit := (organize 10 (init false (Some (Dir sample_reports)))).2 in
  let ended := main 10 (fresh_session ["  "; " Yes "]
                         (λ _, Some (Dir sample_reports))) in
  ended.1 = Finished ∧
  stdin ended.2 = [] ∧
  world ended.2 source = disk commit ∧
  (∀ p, p ≠ source → world ended.2 p = Some (Dir sample_reports)) ∧
  console ended.2 =
    [Welcome; AskFolder; WillOrganize source; RunningPreview]
    ++ (Organizer <$> stdout preview)
    ++ [AskProceed; OrganizingFiles]
    ++ (Organizer <$> stdout commit)
    ++ [AllDone] ∧
  log ended.2 = calls preview ++ calls commit.
Proof.
  apply (main_confirmed_commits_what_was_previewed 10 "  " " Yes " []
           (λ _, Some (Dir sample_reports)) sample_reports).
  - vm_compute. by left.
  - reflexivity.
  - vm_compute. lia.
Defined.

(** When the folder typed does not exist or is not a directory, the
    exception of the preview run escapes from [main]: the second question is
    never asked and its answer is not read, the commit phase is not reached,
    the only call made is the failed listing and no folder changes. *)
Theorem main_stops_on_missing_folder fuel folder rest w :
  (∀ es, w (chosen_source folder) ≠ Some (Dir es)) →
  let ended := main fuel (fresh_session (folder :: rest) w) in
  (∃ e, ended.1 = Escaped e ∧ DirectoryNotFound e) ∧
  stdin ended.2 = rest ∧
  console ended.2 =
    [Welcome; AskFolder; WillOrganize (chosen_source folder); RunningPreview]
    ++ (Organizer <$> header_lines true) ∧
  log ended.2 = [Iterdir] ∧
  (∀ p, world ended.2 p = w p).
Proof.
  intros Hnot. cbv zeta.
  unfold main, input, fresh_session. cbn [stdin say console world log].
  fold (chosen_source folder).
  unfold run_organizer. cbn [stdin say console world log].
  rewrite organize_not_dir by done. cbn.
  split; [|repeat split; try done].
  - eexists. split; [done|]. unfold DirectoryNotFound.
    destruct (w (chosen_source folder)); auto.
  - intros p. case_decide; [by subst|done].
Qed.

Lemma main_stops_on_missing_folder_witness :
  let ended := main 10 (fresh_session ["/no/such/folder"; "yes"] (λ _, None)) in
  (∃ e, ended.1 = Escaped e ∧ DirectoryNotFound e) ∧
  stdin ended.2 = ["yes"] ∧
  console ended.2 =
    [Welcome; AskFolder; WillOrganize (chosen_source "/no/such/folder");
     RunningPreview]
    ++ (Organizer <$> header_lines true) ∧
  log ended.2 = [Iterdir] ∧
  (∀ p, world ended.2 p = None).
Proof.
  apply (main_stops_on_missing_folder 10 "/no/such/folder" ["yes"] (λ _, None)).
  intros es. discriminate.
Defined.

(** * The rule-based chatbot *)

Lemma get_response_history bot m :
  Chat.conversation_history (Chat.get_response bot m).2 =
  Chat.conversation_history bot
  ++ [ {| Chat.role := "user"; Chat.content := m |};
       {| Chat.role := "assistant";
          Chat.content := (Chat.get_response bot m).1 |} ].
Proof.
  unfold Chat.get_response.
  destruct (Chat.first_match _ _); cbn; by rewrite <- app_assoc.
Qed.

(** Every call of [get_response] records the exchange: after a
    conversation, from any bot, there is one reply per message and the
    history is the old history followed, message by message, by the user's
    text and the reply that was returned for it. *)
Theorem conversation_is_recorded bot messages :
  length (Chat.converse bot messages).1 = length messages ∧
  Chat.conversation_history (Chat.converse bot messages).2 =
    Chat.conversation_history bot
    ++ Chat.transcript messages (Chat.converse bot messages).1.
Proof.
  revert bot. induction messages as [|m messages IH]; intros bot; simpl.
  - split; [done|]. by rewrite app_nil_r.
  - pose proof (get_response_history bot m) as Hhist.
    destruct (Chat.get_response bot m) as [reply bot1]. cbn in Hhist.
    destruct (IH bot1) as [Hlen Hrec].
    destruct (Chat.converse bot1 messages) as [replies bot2]. cbn in *.
    split; [by rewrite Hlen|].
    rewrite Hrec, Hhist. unfold Chat.transcript. cbn.
    by rewrite <- app_assoc.
Qed.

Lemma default_responses_differ m1 m2 i j :
  i < 3 → j < 3 → i ≠ j →
  nth i (Chat.default_responses m1) "" ≠ nth j (Chat.default_responses m2) "".
Proof.
  intros Hi Hj Hij Heq.
  destruct i as [|[|[|i]]], j as [|[|[|j]]]; try lia;
    vm_compute in Heq; discriminate.
Qed.

(** Messages that match no keyword are answered from the three default
    templates in rotation with the length of the history: the template used
    has index (history length + 1) modulo 3, and two such messages in a row
    never get the same reply. *)
Theorem unmatched_replies_rotate bot m1 m2 :
  Chat.first_match Chat.responses (Text.strip (Str.lower m1)) = None →
  Chat.first_match Chat.responses (Text.strip (Str.lower m2)) = None →
  let first := Chat.get_response bot m1 in
  let second := Chat.get_response first.2 m2 in
  first.1 =
    nth ((length (Chat.conversation_history bot) + 1) mod 3)
      (Chat.default_responses m1) "" ∧
  second.1 =
    nth ((length (Chat.conversation_history bot) + 3) mod 3)
      (Chat.default_responses m2) "" ∧
  first.1 ≠ second.1.
Proof.
  intros H1 H2. cbv zeta.
  pose proof (get_response_history bot m1) as Hhist.
  assert (Hfirst : (Chat.get_response bot m1).1 =
    nth ((length (Chat.conversation_history bot) + 1) mod 3)
      (Chat.default_responses m1) "").
  { unfold Chat.get_response. rewrite H1. cbn [fst].
    by rewrite length_app. }
  assert (Hsecond :
    (Chat.get_response (Chat.get_response bot m1).2 m2).1 =
    nth ((length (Chat.conversation_history bot) + 3) mod 3)
      (Chat.default_responses m2) "").
  { unfold Chat.get_response at 1. rewrite H2. cbn [fst].
    rewrite length_app, Hhist, length_app. cbn [length].
    by replace (length (Chat.conversation_history bot) + 2 + 1)
      with (length (Chat.conversation_history bot) + 3) by lia. }
  split; [done|]. split; [done|].
  rewrite Hfirst, Hsecond. apply default_responses_differ.
  - apply Nat.mod_upper_bound. lia.
  - apply Nat.mod_upper_bound. lia.
  - set (n := length (Chat.conversation_history bot)).
    rewrite (Nat.Div0.add_mod n 1), (Nat.Div0.add_mod n 3).
    pose proof (Nat.mod_upper_bound n 3 ltac:(lia)) as Hn.
    destruct (n mod 3) as [|[|[|?]]]; try lia; by vm_compute.
Qed.

Lemma unmatched_replies_rotate_witness :
  let first := Chat.get_response Chat.new_bot "xyz" in
  let second := Chat.get_response first.2 "qqq" in
  first.1 =
    nth ((length (Chat.conversation_history Chat.new_bot) + 1) mod 3)
      (Chat.default_responses "xyz") "" ∧
  second.1 =
    nth ((length (Chat.conversation_history Chat.new_bot) + 3) mod 3)
      (Chat.default_responses "qqq") "" ∧
  first.1 ≠ second.1.
Proof.
  apply (unmatched_replies_rotate Chat.new_bot "xyz" "qqq"); reflexivity.
Defined.

Lemma first_match_spec items msg :
  match Chat.first_match items msg with
  | Some r =>
      ∃ i k, items !! i = Some (k, r) ∧ Chat.contains k msg = true ∧
             ∀ j k' r', j < i → items !! j = Some (k', r') →
                        Chat.contains k' msg = false
  | None => ∀ k r, (k, r) ∈ items → Chat.contains k msg = false
  end.
Proof.
  induction items as [|[k r] items IH]; simpl.
  - intros k r Hin. by apply elem_of_nil in Hin.
  - destruct (Chat.contains k msg) eqn:Hk.
    + exists 0, k. repeat split; try done. intros; lia.
    + destruct (Chat.first_match items msg) as [r0|].
      * destruct IH as (i & k0 & Hi & Hc & Hbefore).
        exists (S i), k0. repeat split; try done.
        intros [|j] k' r' Hj Hlook; simpl in Hlook; [by simplify_eq|].
        eapply Hbefore; [|done]. lia.
      * intros k' r' Hin.
        apply elem_of_cons in Hin as [?|Hin]; [by simplify_eq|by eapply IH].
Qed.

Lemma default_is_not_canned m n :
  nth n (Chat.default_responses m) "" ∉ Chat.responses.*2.
Proof.
  intros Hin.
  destruct n as [|[|[|[|n]]]]; vm_compute in Hin;
    repeat (apply elem_of_cons in Hin as [Hin|Hin]; [discriminate|]);
    by apply elem_of_nil in Hin.
Qed.

(** The reply is one of the eight canned responses exactly when one of the
    keywords occurs in the lower-cased, stripped message, and then it is the
    response of the first such keyword in the order of the table; otherwise
    it is a default template. *)
Theorem canned_reply_iff_keyword bot m :
  let reply := (Chat.get_response bot m).1 in
  let msg_lower := Text.strip (Str.lower m) in
  (reply ∈ Chat.responses.*2 ↔
   ∃ k r, (k, r) ∈ Chat.responses ∧ Chat.contains k msg_lower = true) ∧
  (∀ i k r,
      Chat.responses !! i = Some (k, r) →
      Chat.contains k msg_lower = true →
      (∀ j k' r', j < i → Chat.responses !! j = Some (k', r') →
                  Chat.contains k' msg_lower = false) →
      reply = r).
Proof.
  cbv zeta.
  pose proof (first_match_spec Chat.responses (Text.strip (Str.lower m)))
    as Hspec.
  unfold Chat.get_response.
  destruct (Chat.first_match Chat.responses (Text.strip (Str.lower m)))
    as [r0|] eqn:Hfm; cbn [fst].
  - destruct Hspec as (i0 & k0 & Hi0 & Hc0 & Hbefore0).
    assert (Hin0 : (k0, r0) ∈ Chat.responses)
      by (apply list_elem_of_lookup; by exists i0).
    split.
    + split; [intros _; by exists k0, r0|].
      intros _. apply list_elem_of_fmap. by exists (k0, r0).
    + intros i k r Hi Hc Hbefore.
      destruct (Nat.lt_trichotomy i i0) as [Hlt|[->|Hgt]].
      * rewrite (Hbefore0 i k r Hlt Hi) in Hc. discriminate.
      * congruence.
      * rewrite (Hbefore i0 k0 r0 Hgt Hi0) in Hc0. discriminate.
  - split.
    + split.
      * intros Hin. by apply default_is_not_canned in Hin.
      * intros (k & r & Hin & Hc). rewrite (Hspec k r Hin) in Hc. discriminate.
    + intros i k r Hi Hc _.
      assert (Hin : (k, r) ∈ Chat.responses)
        by (apply list_elem_of_lookup; by exists i).
      rewrite (Hspec k r Hin) in Hc. discriminate.
Qed.

Lemma canned_reply_iff_keyword_witness :
  (Chat.get_response Chat.new_bot "Oh, HELLO there").1 =
  "Hi there! I'm running in local mode. How can I help you today?".
Proof.
  apply (proj2 (canned_reply_iff_keyword Chat.new_bot "Oh, HELLO there")
           0 "hello").
  - reflexivity.
  - reflexivity.
  - intros; lia.
Defined.

(** * Building the email bot *)

Lemma get_smtp_config_cases address :
  ∃ server, Email.get_smtp_config address =
              (Some (server, 587), (Email.get_smtp_config address).2) ∧
    server ∈ ["smtp.gmail.com"; "smtp-mail.outlook.com";
              "smtp.mail.yahoo.com"] ∧
    (Chat.contains "gmail" (Str.lower address) = true →
     server = "smtp.gmail.com") ∧
    ((Email.get_smtp_config address).2 = true →
     server = "smtp.gmail.com") ∧
    ((Email.get_smtp_config address).2 = true ↔
     Chat.contains "gmail" (Str.lower address) = false ∧
     Chat.contains "outlook" (Str.lower address) = false ∧
     Chat.contains "hotmail" (Str.lower address) = false ∧
     Chat.contains "yahoo" (Str.lower address) = false).
Proof.
  unfold Email.get_smtp_config.
  destruct (Chat.contains "gmail" _) eqn:Hg.
  { exists "smtp.gmail.com". cbn. split; [done|]. split; [by left|].
    repeat split; try done. by intros [? _]. }
  destruct (Chat.contains "outlook" _) eqn:Ho.
  { exists "smtp-mail.outlook.com". cbn. split; [done|].
    split; [by right; left|]. repeat split; try done. by intros (_ & ? & _). }
  destruct (Chat.contains "hotmail" _) eqn:Hh.
  { exists "smtp-mail.outlook.com". cbn. split; [done|].
    split; [by right; left|]. repeat split; try done.
    by intros (_ & _ & ? & _). }
  destruct (Chat.contains "yahoo" _) eqn:Hy.
  { exists "smtp.mail.yahoo.com". cbn. split; [done|].
    split; [by right; right; left|]. repeat split; try done.
    by intros (_ & _ & _ & ?). }
  exists "smtp.gmail.com". cbn. split; [done|]. split; [by left|].
  by repeat split.
Qed.

(** A bot that [EmailBot(...)] builds is ready to send: its address is not
    empty, its password is neither empty nor the placeholder of the example
    file, its port is 587 and its server is one of the three known hosts;
    the server is Gmail's whenever the lower-cased address contains
    [gmail], and also, with the warning printed, exactly when it contains
    none of [gmail], [outlook], [hotmail] and [yahoo]. *)
Theorem built_email_bot_is_configured address password getenv bot warned :
  Email.init address password getenv = Email.Built bot warned →
  Email.email_address bot ≠ "" ∧
  Email.email_password bot ≠ "" ∧
  Email.email_password bot ≠ Email.placeholder ∧
  Email.smtp_port bot = 587 ∧
  Email.smtp_server bot ∈
    ["smtp.gmail.com"; "smtp-mail.outlook.com"; "smtp.mail.yahoo.com"] ∧
  (Chat.contains "gmail" (Str.lower (Email.email_address bot)) = true →
   Email.smtp_server bot = "smtp.gmail.com") ∧
  (warned = true → Email.smtp_server bot = "smtp.gmail.com") ∧
  (warned = true ↔
   Chat.contains "gmail" (Str.lower (Email.email_address bot)) = false ∧
   Chat.contains "outlook" (Str.lower (Email.email_address bot)) = false ∧
   Chat.contains "hotmail" (Str.lower (Email.email_address bot)) = false ∧
   Chat.contains "yahoo" (Str.lower (Email.email_address bot)) = false).
Proof.
  unfold Email.init.
  destruct (Email.or_else address _) as [a|] eqn:Ha; [|done].
  destruct (Email.truthy (Some a)) eqn:Hta; [|done]. cbn [negb].
  destruct (Email.or_else password _) as [p|] eqn:Hp; [|done].
  destruct (Email.truthy (Some p)) eqn:Htp; [|done]. cbn [negb orb].
  case_bool_decide as Hph; [done|].
  destruct (get_smtp_config_cases a)
    as (server & Hcfg & Hin & Hgmail & Hwarn & Hiff).
  rewrite Hcfg. intros [= <- <-]. cbn.
  unfold Email.truthy in Hta, Htp.
  apply negb_true_iff, bool_decide_eq_false in Hta, Htp.
  do 7 (split; [done|]). done.
Qed.

Lemma built_email_bot_is_configured_witness :
  let bot := {| Email.email_address := "me@corp.example";
                Email.email_password := "pw";
                Email.smtp_server := "smtp.gmail.com";
                Email.smtp_port := 587 |} in
  Email.email_address bot ≠ "" ∧
  Email.email_password bot ≠ "" ∧
  Email.email_password bot ≠ Email.placeholder ∧
  Email.smtp_port bot = 587 ∧
  Email.smtp_server bot ∈
    ["smtp.gmail.com"; "smtp-mail.outlook.com"; "smtp.mail.yahoo.com"] ∧
  (Chat.contains "gmail" (Str.lower (Email.email_address bot)) = true →
   Email.smtp_server bot = "smtp.gmail.com") ∧
  (true = true → Email.smtp_server bot = "smtp.gmail.com") ∧
  (true = true ↔
   Chat.contains "gmail" (Str.lower (Email.email_address bot)) = false ∧
   Chat.contains "outlook" (Str.lower (Email.email_address bot)) = false ∧
   Chat.contains "hotmail" (Str.lower (Email.email_address bot)) = false ∧
   Chat.contains "yahoo" (Str.lower (Email.email_address bot)) = false).
Proof.
  apply (built_email_bot_is_configured (Some "me@corp.example") (Some "pw")
           (λ _, None)).
  reflexivity.
Defined.

(** [EmailBot(...)] fails exactly on missing credentials, the address being
    checked first: an argument that is given and not empty is used, else the
    environment variable; the address error is raised when neither gives a
    non-empty address, the password error when the address is there and the
    password found is missing, empty or the placeholder.  The table lookup
    never fails. *)
Theorem email_bot_rejects_missing_credentials address password getenv :
  let a := Email.or_else address (getenv "EMAIL_ADDRESS") in
  let p := Email.or_else password (getenv "EMAIL_PASSWORD") in
  Email.init address password getenv ≠ Email.KeyError ∧
  (Email.init address password getenv = Email.AddressNotFound ↔
   Email.truthy address = false ∧
   Email.truthy (getenv "EMAIL_ADDRESS") = false) ∧
  (Email.init address password getenv = Email.PasswordNotFound ↔
   Email.truthy a = true ∧
   (Email.truthy p = false ∨ p = Some Email.placeholder)) ∧
  (Email.truthy address = true → a = address) ∧
  (Email.truthy password = true → p = password).
Proof.
  cbv zeta.
  assert (Hta : Email.truthy (Email.or_else address (getenv "EMAIL_ADDRESS"))
                = Email.truthy address
                  || Email.truthy (getenv "EMAIL_ADDRESS")).
  { unfold Email.or_else. by destruct (Email.truthy address) eqn:Hadr. }
  assert (Harg : ∀ x y, Email.truthy x = true → Email.or_else x y = x).
  { intros x y Hx. unfold Email.or_else. by rewrite Hx. }
  split_and!; [| | |by apply Harg|by apply Harg].
  - unfold Email.init.
    destruct (Email.or_else address _) as [a|]; [|done].
    destruct (Email.truthy (Some a)); [|done]. cbn [negb].
    destruct (Email.or_else password _) as [p|]; [|done].
    destruct (negb _ || _); [done|].
    destruct (get_smtp_config_cases a) as (server & -> & _). done.
  - rewrite <- orb_false_iff, <- Hta. unfold Email.init.
    destruct (Email.or_else address _) as [a|]; [|done].
    destruct (Email.truthy (Some a)); [|done]. cbn [negb].
    split; [|done].
    destruct (Email.or_else password _) as [p|]; [|done].
    destruct (negb _ || _); [done|].
    destruct (get_smtp_config_cases a) as (server & -> & _). done.
  - unfold Email.init.
    destruct (Email.or_else address _) as [a|].
    2: { split; [done|]. by intros [? _]. }
    destruct (Email.truthy (Some a)).
    2: { split; [done|]. by intros [? _]. }
    cbn [negb].
    destruct (Email.or_else password _) as [p|].
    2: { split; [|done]. intros _. split; [done|by left]. }
    destruct (Email.truthy (Some p)) eqn:Htp; cbn [negb orb].
    2: { split; [|done]. intros _. split; [done|by left]. }
    case_bool_decide as Hph.
    + subst p. split; [|done]. intros _. split; [done|by right].
    + destruct (get_smtp_config_cases a) as (server & -> & _).
      split; [done|]. intros [_ [?|?]]; [done|congruence].
Qed.

Lemma email_bot_rejects_missing_credentials_witness :
  Email.init (Some "") None
    (λ k, if decide (k = "EMAIL_PASSWORD") then Some "pw" else None)
  = Email.AddressNotFound.
Proof.
  apply (proj1 (proj2 (email_bot_rejects_missing_credentials (Some "") None
           (λ k, if decide (k = "EMAIL_PASSWORD") then Some "pw" else None)))).
  by split.
Defined.
